(** * TDC molecular oracles: score modifiers, SA estimator, formula parsing,
    retrosynthesis tree analysis

  A shallow embedding of [tdc/chem_utils/oracle.py].

  Conventions of the embedding.
  - Python floats are idealised as real numbers ([R]); JSON numbers of the
    retrosynthesis result are rationals ([Q]) so that the tree analysis
    computes.
  - A Python call either returns a value or raises: [result A].
  - A Python string is a sequence of code points ([PyStr.str]); the
    interpreter's table of decimal digits and its limit on integer texts are
    the fields of [PyStr.Interpreter].
  - A cell of an [np.int32] array holds its value modulo 2^32 ([int32]).
  - The chemistry toolkit (RDKit), the pickled artifacts and scipy's
    [gmean] are external collaborators: they are the fields of the record
    [Toolkit], and every definition that reaches them takes a toolkit. *)

From Stdlib Require Import Reals Lra Lia ZArith QArith Qround List String Ascii Bool.
Import ListNotations.

Set Implicit Arguments.
Set Warnings "-register-all".

(** ** Python results *)

Module Py.

Inductive exn : Set :=
| AssertionError      (* a failed [assert] *)
| ZeroDivisionError   (* [/] on Python numbers with a zero divisor *)
| ArgumentError       (* Boost.Python: [None] handed to an RDKit function *)
| KeyError            (* [d[k]] with [k] not in [d] *)
| ValueError          (* [math.log] outside its domain, [int] on too long a text *)
| OutOfFuel.          (* artefact of the model, see [tree_analysis_fuel_enough] *)

Inductive result (A : Type) : Type :=
| Ok (a : A)
| Raise (e : exn).

Arguments Ok {A} a.
Arguments Raise {A} e.

Definition bind {A B : Type} (r : result A) (k : A -> result B) : result B :=
  match r with
  | Ok a => k a
  | Raise e => Raise e
  end.

Definition returns {A : Type} (r : result A) : Prop := exists a, r = Ok a.

End Py.

Import Py.

Notation "x <- e ;; k" := (bind e (fun x => k))
(at level 61, e at next level, right associativity).

(** ** Scalars: Python floats and numpy floats

  The modifiers mix Python arithmetic with numpy functions.  The two kinds
  of scalar differ in one observable way: [/] on two Python numbers raises
  [ZeroDivisionError] on a zero divisor, whereas as soon as one operand is a
  numpy scalar the division returns (inf or nan, with a warning).  Those
  non-finite values have no counterpart in [R]: the value of
  a numpy division by zero is left as Rocq's [x / 0]. *)

Module Scalar.

Local Open Scope R_scope.

Inductive scalar : Type :=
| PyFloat (r : R)
| NpFloat (r : R).

Definition val (s : scalar) : R :=
  match s with PyFloat r | NpFloat r => r end.

Definition lift2 (f : R -> R -> R) (a b : scalar) : scalar :=
  match a, b with
  | PyFloat x, PyFloat y => PyFloat (f x y)
  | _, _ => NpFloat (f (val a) (val b))
  end.

Definition add := lift2 Rplus.
Definition sub := lift2 Rminus.
Definition mul := lift2 Rmult.

(** [a / b] *)
Definition truediv (a b : scalar) : result scalar :=
  match a, b with
  | PyFloat x, PyFloat y =>
      if Req_EM_T y 0 then Raise ZeroDivisionError else Ok (PyFloat (x / y))
  | _, _ => Ok (NpFloat (val a / val b))
  end.

(** [/] on two Python floats *)
Definition pydiv (x y : R) : result R :=
  if Req_EM_T y 0 then Raise ZeroDivisionError else Ok (x / y).

Definition np_exp (x : scalar) : scalar := NpFloat (exp (val x)).
(** [np.power(x, n)] for a literal whole exponent [n] *)
Definition np_power (x : scalar) (n : nat) : scalar := NpFloat (val x ^ n).
Definition np_square (x : scalar) : scalar := NpFloat (val x * val x).
Definition np_abs (x : scalar) : scalar := NpFloat (Rabs (val x)).
Definition np_minimum (x y : scalar) : scalar := NpFloat (Rmin (val x) (val y)).
Definition np_maximum (x y : scalar) : scalar := NpFloat (Rmax (val x) (val y)).
(** [np.clip(y, lo, hi)] is [minimum(maximum(y, lo), hi)] *)
Definition np_clip (y lo hi : scalar) : scalar :=
  NpFloat (Rmin (Rmax (val y) (val lo)) (val hi)).

End Scalar.

Import Scalar.

(** ** The score modifier algebra *)

Module Modifier.

Local Open Scope R_scope.

(** One constructor per class; the arguments are the instance attributes
    set by [__init__]. *)
Inductive ScoreModifier : Type :=
| ChainedModifier (modifiers : list ScoreModifier)
| LinearModifier (slope : R)
| SquaredModifier (target_value coefficient : R)
| AbsoluteScoreModifier (target_value : R)
| GaussianModifier (mu sigma : R)
| MinMaxGaussianModifier (mu sigma : R) (minimize : bool)
| ClippedScoreModifier (upper_x lower_x high_score low_score slope intercept : R)
| SmoothClippedScoreModifier (upper_x lower_x high_score low_score k middle_x L : R)
| ThresholdedLinearModifier (threshold : R).

(** [GaussianModifier.__call__] *)
Definition Gaussian_call (mu sigma : R) (x : scalar) : result scalar :=
  d <- truediv (sub x (PyFloat mu)) (PyFloat sigma) ;;
  Ok (np_exp (mul (PyFloat (- 0.5)) (np_power d 2))).

(** [__call__] of every class. *)
Fixpoint call (m : ScoreModifier) (x : scalar) {struct m} : result scalar :=
  match m with
  | ChainedModifier modifiers =>
      (fix loop (ms : list ScoreModifier) (score : scalar) {struct ms}
         : result scalar :=
         match ms with
         | [] => Ok score
         | modifier :: rest => s <- call modifier score ;; loop rest s
         end) modifiers x
  | LinearModifier slope => Ok (mul (PyFloat slope) x)
  | SquaredModifier target_value coefficient =>
      Ok (sub (PyFloat 1)
            (mul (PyFloat coefficient) (np_square (sub (PyFloat target_value) x))))
  | AbsoluteScoreModifier target_value =>
      Ok (sub (PyFloat 1) (np_abs (sub (PyFloat target_value) x)))
  | GaussianModifier mu sigma => Gaussian_call mu sigma x
  | MinMaxGaussianModifier mu sigma minimize =>
      let mod_x := if minimize then np_maximum x (PyFloat mu)
                   else np_minimum x (PyFloat mu) in
      Gaussian_call mu sigma mod_x
  | ClippedScoreModifier _ _ high_score low_score slope intercept =>
      let y := add (mul (PyFloat slope) x) (PyFloat intercept) in
      Ok (np_clip y (PyFloat low_score) (PyFloat high_score))
  | SmoothClippedScoreModifier _ _ _ low_score k middle_x L =>
      q <- truediv (PyFloat L)
             (add (PyFloat 1)
                (np_exp (mul (PyFloat (- k)) (sub x (PyFloat middle_x))))) ;;
      Ok (add (PyFloat low_score) q)
  | ThresholdedLinearModifier threshold =>
      truediv (np_minimum x (PyFloat threshold)) (PyFloat threshold)
  end.

(** [ClippedScoreModifier.__init__] *)
Definition ClippedScoreModifier_init (upper_x lower_x high_score low_score : R)
  : result ScoreModifier :=
  if Rlt_dec low_score high_score then
    slope <- pydiv (high_score - low_score) (upper_x - lower_x) ;;
    let intercept := high_score - slope * upper_x in
    Ok (ClippedScoreModifier upper_x lower_x high_score low_score slope intercept)
  else Raise AssertionError.

(** [SmoothClippedScoreModifier.__init__] *)
Definition SmoothClippedScoreModifier_init
  (upper_x lower_x high_score low_score : R) : result ScoreModifier :=
  if Rlt_dec low_score high_score then
    k <- pydiv 4 (upper_x - lower_x) ;;
    let middle_x := (upper_x + lower_x) / 2 in
    let L := high_score - low_score in
    Ok (SmoothClippedScoreModifier upper_x lower_x high_score low_score
          k middle_x L)
  else Raise AssertionError.

(** The constructor calls a client can write, one per class
    ([MinGaussianModifier] and [MaxGaussianModifier] are
    [MinMaxGaussianModifier] with [minimize] fixed). *)
Inductive Construction : Type :=
| NewChained (modifiers : list ScoreModifier)
| NewLinear (slope : R)
| NewSquared (target_value coefficient : R)
| NewAbsolute (target_value : R)
| NewGaussian (mu sigma : R)
| NewMinMaxGaussian (mu sigma : R) (minimize : bool)
| NewClipped (upper_x lower_x high_score low_score : R)
| NewSmoothClipped (upper_x lower_x high_score low_score : R)
| NewThresholdedLinear (threshold : R).

Definition construct (c : Construction) : result ScoreModifier :=
  match c with
  | NewChained ms => Ok (ChainedModifier ms)
  | NewLinear s => Ok (LinearModifier s)
  | NewSquared t c => Ok (SquaredModifier t c)
  | NewAbsolute t => Ok (AbsoluteScoreModifier t)
  | NewGaussian mu sigma => Ok (GaussianModifier mu sigma)
  | NewMinMaxGaussian mu sigma b => Ok (MinMaxGaussianModifier mu sigma b)
  | NewClipped u l h lo => ClippedScoreModifier_init u l h lo
  | NewSmoothClipped u l h lo => SmoothClippedScoreModifier_init u l h lo
  | NewThresholdedLinear t => Ok (ThresholdedLinearModifier t)
  end.

(** The invariant each [__init__] asserts: [low_score < high_score] in the
    two clipped classes, nothing elsewhere. *)
Definition asserted_invariant (c : Construction) : Prop :=
  match c with
  | NewClipped _ _ high_score low_score
  | NewSmoothClipped _ _ high_score low_score => low_score < high_score
  | _ => True
  end.

End Modifier.

Import Modifier.

(** ** External collaborators

    What the oracle module takes from RDKit, from the pickled artifacts under
    [oracle/] and from scipy.  RDKit functions are typed on molecules: the
    Python bindings reject [None] with [ArgumentError] ([rdkit_arg]). *)

Record Toolkit : Type := {
  Mol : Type;
  Fingerprint : Type;
  (** [Chem.MolFromSmiles]: [None] when the text does not parse *)
  MolFromSmiles : string -> option Mol;
  (** [Chem.SanitizeMol]: [false] when it raises [ValueError] *)
  SanitizeMol : Mol -> bool;
  (** [AllChem.GetMorganFingerprint(mol, radius, useFeatures=...)] *)
  GetMorganFingerprint : Mol -> nat -> bool -> Fingerprint;
  (** [AllChem.GetAtomPairFingerprint(mol, maxLength=10)] *)
  GetAtomPairFingerprint : Mol -> Fingerprint;
  (** [AllChem.GetMorganFingerprintAsBitVect(mol, 2, nBits=2048, useChirality=False)] *)
  GetMorganFingerprintAsBitVect : Mol -> Fingerprint;
  (** [fp.GetNonzeroElements()]: fragment identifier and its (non-zero) count,
      each identifier once *)
  GetNonzeroElements : Fingerprint -> list (Z * positive);
  TanimotoSimilarity : Fingerprint -> Fingerprint -> R;
  QED_qed : Mol -> R;
  TPSA : Mol -> R;
  MolLogP : Mol -> R;
  GetNumAtoms : Mol -> nat;
  (** [len(Chem.FindMolChiralCenters(m, includeUnassigned=True))] *)
  NumChiralCenters : Mol -> nat;
  CalcNumSpiroAtoms : Mol -> nat;
  CalcNumBridgeheadAtoms : Mol -> nat;
  (** [m.GetRingInfo().AtomRings()] *)
  AtomRings : Mol -> list (list nat);
  (** the table [_fscores] built by [readFragmentScores] *)
  _fscores : Z -> option R;
  (** [drd2_model.predict_proba(fp)[:, 1]] on the folded count vector *)
  drd2_predict_proba : (Z -> Z) -> R;
  (** [scipy.stats.mstats.gmean] *)
  gmean : list R -> R
}.

Definition rdkit_arg {tk : Toolkit} (m : option (Mol tk)) : result (Mol tk) :=
  match m with
  | Some mol => Ok mol
  | None => Raise ArgumentError
  end.

(** ** Synthetic accessibility *)

Module SAscore.

Local Open Scope R_scope.

(** [math.log] *)
Definition math_log (x : R) : result R :=
  if Rlt_dec 0 x then Ok (ln x) else Raise ValueError.

(** [math.log10] *)
Definition math_log10 (x : R) : result R :=
  if Rlt_dec 0 x then Ok (ln x / ln 10) else Raise ValueError.

(** [n ** y] for a count [n] and a positive float [y] *)
Definition pow_float (n : nat) (y : R) : R :=
  match n with
  | O => 0
  | S _ => Rpower (INR n) y
  end.

(** One round of the loop over [iteritems(fps)], on [(score1, nf)] *)
Definition fragment_step (fscores : Z -> option R) (acc : R * Z)
  (kv : Z * positive) : R * Z :=
  let '(score1, nf) := acc in
  let '(bitId, v) := kv in
  let nf := (nf + Zpos v)%Z in
  let sfp := bitId in
  (* _fscores.get(sfp,-4) *)
  let contribution := match fscores sfp with Some f => f | None => -4 end in
  (score1 + contribution * IZR (Zpos v), nf).

(** The loop over [iteritems(fps)], from [score1 = 0.] and [nf = 0] *)
Definition fragment_sums (fscores : Z -> option R) (fps : list (Z * positive))
  : R * Z :=
  fold_left (fragment_step fscores) fps (0, 0%Z).

(** [sascore = 11. - (sascore - min + 1) / (max - min) * 9.] with
    [min = -4.0] and [max = 2.5] *)
Definition rescale (sascore : R) : R :=
  let min := - 4.0 in
  let max := 2.5 in
  11 - (sascore - min + 1) / (max - min) * 9.

(** [if sascore > 8.: sascore = 8. + math.log(sascore+1.-9.)] *)
Definition smooth (sascore : R) : result R :=
  if Rlt_dec 8 sascore then
    l <- math_log (sascore + 1 - 9) ;; Ok (8 + l)
  else Ok sascore.


(** [if sascore > 10.: sascore = 10.0  elif sascore < 1.: sascore = 1.0] *)
Definition clamp (sascore : R) : R :=
  if Rlt_dec 10 sascore then 10
  else if Rlt_dec sascore 1 then 1
  else sascore.

(** [calculateScore(m)], the fragment table being loaded. *)
Definition calculateScore (tk : Toolkit) (m : Mol tk) : result R :=
  (* fragment score *)
  let fp := GetMorganFingerprint tk m 2 false in
  let fps := GetNonzeroElements tk fp in
  let '(score1, nf) := fragment_sums (_fscores tk) fps in
  score1 <- pydiv score1 (IZR nf) ;;
  (* features score *)
  let nAtoms := GetNumAtoms tk m in
  let nChiralCenters := NumChiralCenters tk m in
  let nBridgeheads := CalcNumBridgeheadAtoms tk m in
  let nSpiro := CalcNumSpiroAtoms tk m in
  let nMacrocycles :=
    List.length (filter (fun x => (8 <? List.length x)%nat) (AtomRings tk m)) in
  let sizePenalty := pow_float nAtoms 1.005 - INR nAtoms in
  stereoPenalty <- math_log10 (INR nChiralCenters + 1) ;;
  spiroPenalty <- math_log10 (INR nSpiro + 1) ;;
  bridgePenalty <- math_log10 (INR nBridgeheads + 1) ;;
  macrocyclePenalty <-
    (if (0 <? nMacrocycles)%nat then math_log10 2 else Ok 0) ;;
  let score2 :=
    0 - sizePenalty - stereoPenalty - spiroPenalty - bridgePenalty
      - macrocyclePenalty in
  (* correction for the fingerprint density *)
  score3 <-
    (if (List.length fps <? nAtoms)%nat then
       q <- pydiv (INR nAtoms) (INR (List.length fps)) ;;
       l <- math_log q ;; Ok (l * 0.5)
     else Ok 0) ;;
  let sascore := score1 + score2 + score3 in
  (* transform the raw value into the scale between 1 and 10 *)
  let sascore := rescale sascore in
  sascore <- smooth sascore ;;
  Ok (clamp sascore).


(** [SA(s)]; [s] may be [None]. *)
Definition SA (tk : Toolkit) (s : option string) : result R :=
  match s with
  | None => Ok 100
  | Some s =>
      match MolFromSmiles tk s with
      | None => Ok 100
      | Some mol => calculateScore tk mol
      end
  end.

End SAscore.

(** ** Molecular formulas

  The parser on texts of one-byte characters whose runs of digits [int]
  reads: the texts the isomer objective is given, formulas and SMILES.  The
  parser on all Python strings is [PyStr.parse_molecular_formula]; the two
  agree on one-byte texts of at most 640 characters ([parse_on_bytes]). *)

Module Formula.

Local Open Scope char_scope.

Definition is_upper (c : ascii) : bool :=
  ((65 <=? nat_of_ascii c) && (nat_of_ascii c <=? 90))%nat.
Definition is_lower (c : ascii) : bool :=
  ((97 <=? nat_of_ascii c) && (nat_of_ascii c <=? 122))%nat.
Definition is_digit (c : ascii) : bool :=
  ((48 <=? nat_of_ascii c) && (nat_of_ascii c <=? 57))%nat.

(** Longest prefix of [s] whose characters satisfy [p], and the rest: a greedy
    [p*]. *)
Fixpoint span (p : ascii -> bool) (s : string) : string * string :=
  match s with
  | EmptyString => (EmptyString, EmptyString)
  | String c rest =>
      if p c then let '(a, b) := span p rest in (String c a, b)
      else (EmptyString, s)
  end.

(** [re.findall] with the pattern of the source, an uppercase letter and
    lowercase letters (group 1), then digits (group 2), both greedy and
    possibly empty after the first letter: scanning from the left, a
    match starts at an uppercase letter, takes the lowercase letters and then
    the digits that follow, and the scan resumes behind it; a character at
    which no match starts is skipped.  [fuel] bounds the number of steps; the
    length of the text is enough ([findall_fuel_enough]). *)
Fixpoint findall_fuel (fuel : nat) (s : string) : list (string * string) :=
  match fuel with
  | O => []
  | S fuel' =>
      match s with
      | EmptyString => []
      | String c rest =>
          if is_upper c then
            let '(lows, r1) := span is_lower rest in
            let '(digits, r2) := span is_digit r1 in
            (String c lows, digits) :: findall_fuel fuel' r2
          else findall_fuel fuel' rest
      end
  end.

Definition findall (s : string) : list (string * string) :=
  findall_fuel (String.length s) s.

(** [int(text)] on a string of decimal digits *)
Definition int_of_digits (s : string) : Z :=
  fold_left (fun acc c => (10 * acc + Z.of_nat (nat_of_ascii c - 48))%Z)
    (list_ascii_of_string s) 0%Z.

(** [count = 1 if not match[1] else int(match[1])] *)
Definition count_of (digits : string) : Z :=
  if (digits =? EmptyString)%string then 1%Z else int_of_digits digits.

(** [parse_molecular_formula(formula)] *)
Definition parse_molecular_formula (formula : string) : result (list (string * Z)) :=
  let matches := findall formula in
  Ok (map (fun m : string * string => (fst m, count_of (snd m))) matches).

(** [sum([cnt for atom,cnt in atom2cnt_lst])] *)
Definition total_atom_num (atom2cnt_lst : list (string * Z)) : Z :=
  fold_left (fun acc ac => (acc + snd ac)%Z) atom2cnt_lst 0%Z.

End Formula.

(** ** Formula parsing on Python strings

  A Python [str] is a sequence of Unicode code points.  In the pattern of
  [parse_molecular_formula] the classes [[A-Z]] and [[a-z]] are ranges of
  code points, whereas the digit class of a [str] pattern matches every
  decimal digit of Unicode, and [int] reads them all.  Which code points
  are decimal digits, and their values, is the interpreter's Unicode
  database: the field [decimal].  Where the interpreter limits the length of
  integer texts, [int] raises [ValueError] on a text of more digits than
  [sys.get_int_max_str_digits()] (4300 unless set otherwise); the limit is
  only looked at for texts of more than 640 digits, and 0 stands for no
  limit. *)

Module PyStr.

Definition str : Set := list N.

(** A text of one-byte characters as a [str] *)
Definition of_string (s : string) : str :=
  map N_of_ascii (list_ascii_of_string s).

Record Interpreter : Set := {
  (** [unicodedata.decimal(chr(c), None)] *)
  decimal : N -> option N;
  (** [sys.get_int_max_str_digits()]; 0 where there is no limit *)
  int_max_str_digits : nat
}.

(** Up to U+00FF the decimal digits of Unicode are the ten ASCII digits, with
    their usual values. *)
Definition latin1_digits (py : Interpreter) : Prop :=
  forall c, (c < 256)%N ->
    decimal py c
    = if ((48 <=? c) && (c <=? 57))%N then Some (c - 48)%N else None.

Definition is_upper (c : N) : bool := ((65 <=? c) && (c <=? 90))%N.
Definition is_lower (c : N) : bool := ((97 <=? c) && (c <=? 122))%N.
Definition is_digit (py : Interpreter) (c : N) : bool :=
  match decimal py c with Some _ => true | None => false end.

(** Longest prefix of [s] whose characters satisfy [p], and the rest: a greedy
    [p*]. *)
Fixpoint span (p : N -> bool) (s : str) : str * str :=
  match s with
  | [] => ([], [])
  | c :: rest =>
      if p c then let '(a, b) := span p rest in (c :: a, b)
      else ([], s)
  end.

(** [re.findall] with the pattern of the source: scanning from the left, a
    match starts at an uppercase letter, takes the lowercase letters and then
    the digits that follow, and the scan resumes behind it; a character at
    which no match starts is skipped.  [fuel] bounds the number of steps; the
    length of the text is enough ([findall_steps_enough]). *)
Fixpoint findall_fuel (py : Interpreter) (fuel : nat) (s : str)
  : list (str * str) :=
  match fuel with
  | O => []
  | S fuel' =>
      match s with
      | [] => []
      | c :: rest =>
          if is_upper c then
            let '(lows, r1) := span is_lower rest in
            let '(digits, r2) := span (is_digit py) r1 in
            (c :: lows, digits) :: findall_fuel py fuel' r2
          else findall_fuel py fuel' rest
      end
  end.

Definition findall (py : Interpreter) (s : str) : list (str * str) :=
  findall_fuel py (List.length s) s.

(** The number a text of decimal digits denotes *)
Definition digits_value (py : Interpreter) (digits : str) : Z :=
  fold_left
    (fun acc c =>
       (10 * acc + match decimal py c with Some d => Z.of_N d | None => 0 end)%Z)
    digits 0%Z.

(** [int(text)] on a non-empty text of decimal digits *)
Definition int (py : Interpreter) (digits : str) : result Z :=
  let n := List.length digits in
  if ((640 <? n) && (0 <? int_max_str_digits py)
      && (int_max_str_digits py <? n))%nat
  then Raise ValueError
  else Ok (digits_value py digits).

(** The loop [for match in matches], from the [results] so far *)
Fixpoint convert (py : Interpreter) (matches : list (str * str))
  (results : list (str * Z)) : result (list (str * Z)) :=
  match matches with
  | [] => Ok results
  | m :: matches' =>
      (* count = 1 if not match[1] else int(match[1]) *)
      count <- (match snd m with [] => Ok 1%Z | _ :: _ => int py (snd m) end) ;;
      convert py matches' (results ++ [(fst m, count)])
  end.

(** [parse_molecular_formula(formula)] *)
Definition parse_molecular_formula (py : Interpreter) (formula : str)
  : result (list (str * Z)) :=
  let matches := findall py formula in
  let results := [] in
  convert py matches results.

(** [sum([cnt for atom,cnt in atom2cnt_lst])] *)
Definition total_atom_num (atom2cnt_lst : list (str * Z)) : Z :=
  fold_left (fun acc ac => (acc + snd ac)%Z) atom2cnt_lst 0%Z.

End PyStr.

(** ** Similarity, QED, DRD2 and the multi-property objectives *)

Module Oracle.

Local Open Scope R_scope.

Section WithToolkit.

Variable tk : Toolkit.

(** [smiles_to_rdkit_mol(smiles)] *)
Definition smiles_to_rdkit_mol (smiles : string) : option (Mol tk) :=
  match MolFromSmiles tk smiles with
  | Some mol => if SanitizeMol tk mol then Some mol else None
  | None => None
  end.

Definition smiles_2_fingerprint_ECFP4 (smiles : string) : result (Fingerprint tk) :=
  let molecule := smiles_to_rdkit_mol smiles in
  mol <- rdkit_arg molecule ;;
  Ok (GetMorganFingerprint tk mol 2 false).

Definition smiles_2_fingerprint_FCFP4 (smiles : string) : result (Fingerprint tk) :=
  let molecule := smiles_to_rdkit_mol smiles in
  mol <- rdkit_arg molecule ;;
  Ok (GetMorganFingerprint tk mol 2 true).

Definition smiles_2_fingerprint_AP (smiles : string) : result (Fingerprint tk) :=
  let molecule := smiles_to_rdkit_mol smiles in
  mol <- rdkit_arg molecule ;;
  Ok (GetAtomPairFingerprint tk mol).

Definition smiles_2_fingerprint_ECFP6 (smiles : string) : result (Fingerprint tk) :=
  let molecule := smiles_to_rdkit_mol smiles in
  mol <- rdkit_arg molecule ;;
  Ok (GetMorganFingerprint tk mol 3 false).

(** The dictionary [fp2fpfunc] *)
Definition fp2fpfunc (fp : string) : option (string -> result (Fingerprint tk)) :=
  if (fp =? "ECFP4")%string then Some smiles_2_fingerprint_ECFP4
  else if (fp =? "FCFP4")%string then Some smiles_2_fingerprint_FCFP4
  else if (fp =? "AP")%string then Some smiles_2_fingerprint_AP
  else if (fp =? "ECFP6")%string then Some smiles_2_fingerprint_ECFP6
  else None.

(** What a cell of dtype [np.int32] holds once an integer is stored in it:
    the integer modulo 2^32, read as a signed 32-bit number *)
Definition int32 (z : Z) : Z :=
  ((z + 2147483648) mod 4294967296 - 2147483648)%Z.

(** [fingerprints_from_mol(mol)]: the counts folded into the 2048 cells of
    [np.zeros((1, size), np.int32)]; [nfp[0, nidx] += int(v)] stores the sum
    back into its 32-bit cell *)
Definition fingerprints_from_mol (mol : Mol tk) : Z -> Z :=
  let fp := GetMorganFingerprint tk mol 3 true in
  let size := 2048%Z in
  fold_left
    (fun (nfp : Z -> Z) (kv : Z * positive) =>
       let '(idx, v) := kv in
       let nidx := (idx mod size)%Z in
       fun i => if (i =? nidx)%Z then int32 (nfp i + Zpos v) else nfp i)
    (GetNonzeroElements tk fp) (fun _ => 0%Z).

(** [drd2(smile)], the classifier being loaded *)
Definition drd2 (smile : string) : result R :=
  match MolFromSmiles tk smile with
  | Some mol =>
      let fp := fingerprints_from_mol mol in
      let score := drd2_predict_proba tk fp in
      Ok score
  | None => Ok 0
  end.

(** [similarity(a, b)] *)
Definition similarity (a b : option string) : result R :=
  match a, b with
  | Some a, Some b =>
      match MolFromSmiles tk a, MolFromSmiles tk b with
      | Some amol, Some bmol =>
          let fp1 := GetMorganFingerprintAsBitVect tk amol in
          let fp2 := GetMorganFingerprintAsBitVect tk bmol in
          Ok (TanimotoSimilarity tk fp1 fp2)
      | _, _ => Ok 0
      end
  | _, _ => Ok 0
  end.

(** [qed(s)] *)
Definition qed (s : option string) : result R :=
  match s with
  | None => Ok 0
  | Some s =>
      match MolFromSmiles tk s with
      | None => Ok 0
      | Some mol => Ok (QED_qed tk mol)
      end
  end.

(** An instance of [rediscovery_meta] *)
Record rediscovery_meta : Type := {
  similarity_func : string -> result (Fingerprint tk);
  target_fp : Fingerprint tk
}.

(** [rediscovery_meta.__init__(target_smiles, fp)] *)
Definition rediscovery_meta_init (target_smiles fp : string) : result rediscovery_meta :=
  match fp2fpfunc fp with
  | None => Raise KeyError
  | Some f =>
      t <- f target_smiles ;;
      Ok {| similarity_func := f; target_fp := t |}
  end.

(** [rediscovery_meta.__call__(test_smiles)] *)
Definition rediscovery_meta_call (self : rediscovery_meta) (test_smiles : string)
  : result R :=
  test_fp <- similarity_func self test_smiles ;;
  let similarity_value := TanimotoSimilarity tk (target_fp self) test_fp in
  Ok similarity_value.

(** The module globals [osimertinib_fp_fcfc4] and [osimertinib_fp_ecfc6]:
    absent until the first call that sets them, both at once. *)
Definition Globals : Type := option (Fingerprint tk * Fingerprint tk).

Definition osimertinib_smiles : string :=
  "COc1cc(N(C)CCN(C)C)c(NC(=O)C=C)cc1Nc2nccc(n2)c3cn(C)c4ccccc34".

(** The body of [osimertinib_mpo] below the initialisation of the globals *)
Definition osimertinib_mpo_body
  (osimertinib_fp_fcfc4 osimertinib_fp_ecfc6 : Fingerprint tk)
  (test_smiles : string) : result R :=
  sim_v1_modifier <- ClippedScoreModifier_init 0.8 0 1 0 ;;
  let sim_v2_modifier := MinMaxGaussianModifier 0.85 0.1 true in
  let tpsa_modifier := MinMaxGaussianModifier 100 10 false in
  let logp_modifier := MinMaxGaussianModifier 1 1 true in
  let molecule := smiles_to_rdkit_mol test_smiles in
  fp_fcfc4 <- smiles_2_fingerprint_FCFP4 test_smiles ;;
  fp_ecfc6 <- smiles_2_fingerprint_ECFP6 test_smiles ;;
  mol <- rdkit_arg molecule ;;
  tpsa_score <- call tpsa_modifier (PyFloat (TPSA tk mol)) ;;
  logp_score <- call logp_modifier (PyFloat (MolLogP tk mol)) ;;
  similarity_v1 <-
    call sim_v1_modifier
      (PyFloat (TanimotoSimilarity tk osimertinib_fp_fcfc4 fp_fcfc4)) ;;
  similarity_v2 <-
    call sim_v2_modifier
      (PyFloat (TanimotoSimilarity tk osimertinib_fp_ecfc6 fp_ecfc6)) ;;
  let osimertinib_gmean :=
    gmean tk [val tpsa_score; val logp_score; val similarity_v1; val similarity_v2] in
  Ok osimertinib_gmean.

(** [osimertinib_mpo(test_smiles)]: the result and the globals it leaves *)
Definition osimertinib_mpo (g : Globals) (test_smiles : string)
  : result R * Globals :=
  let init :=
    match g with
    | Some fps => Ok fps
    | None =>
        f4 <- smiles_2_fingerprint_FCFP4 osimertinib_smiles ;;
        f6 <- smiles_2_fingerprint_ECFP6 osimertinib_smiles ;;
        Ok (f4, f6)
    end in
  match init with
  | Raise e => (Raise e, g)
  | Ok (f4, f6) => (osimertinib_mpo_body f4 f6 test_smiles, Some (f4, f6))
  end.

End WithToolkit.

End Oracle.

(** ** Retrosynthesis tree analysis *)

Module Tree.

Local Open Scope Q_scope.

(** A node of the planner's tree: a dictionary whose keys [ppg],
    [plausibility] and [children] may each be absent. *)
Inductive node : Type :=
| Node (ppg : option Q) (plausibility : option Q) (children : option (list node)).

Definition ppg (n : node) : option Q := let '(Node p _ _) := n in p.
Definition plausibility (n : node) : option Q := let '(Node _ p _) := n in p.
Definition children (n : node) : option (list node) := let '(Node _ _ c) := n in c.

(** The planner's answer: a dictionary with the keys [error], [price] and
    [trees], each possibly absent. *)
Record search_result : Type := {
  error : option string;
  price : option Q;
  trees : option (list node)
}.

(** [d[k]] *)
Definition getitem {A : Type} (v : option A) : result A :=
  match v with
  | Some a => Ok a
  | None => Raise KeyError
  end.

(** A [for] loop that may raise *)
Fixpoint for_each {A S : Type} (body : S -> A -> result S) (l : list A) (s : S)
  : result S :=
  match l with
  | [] => Ok s
  | x :: rest => s' <- body s x ;; for_each body rest s'
  end.

(** [depth % 1 != 0] *)
Definition fractional (depth : Q) : bool :=
  negb (Qeq_bool depth (inject_Z (Qfloor depth))).

(** [int(x)]: truncation towards zero *)
Definition int (x : Q) : Z := Z.quot (Qnum x) (Zpos (Qden x)).

(** The result tuple
    [(num_path, status, num_step, p_score, synthesizability, price)] *)
Definition analysis : Type := (Z * list (Q * Z) * Z * Q * Z * Q)%type.

(** Body of [for i, item in enumerate(current)], on [(num_child, temp)] *)
Definition collect (acc : Z * list node) (item : node) : result (Z * list node) :=
  let '(num_child, temp) := acc in
  cs <- getitem (children item) ;;
  Ok ((num_child + Z.of_nat (List.length cs))%Z, temp ++ cs).

(** Body of [for sth in temp] *)
Definition times_plausibility (p_score : Q) (sth : node) : result Q :=
  pl <- getitem (plausibility sth) ;; Ok (p_score * pl).

(** Body of [for mol in temp] *)
Definition plus_ppg (price : Q) (mol : node) : result Q :=
  pp <- getitem (ppg mol) ;; Ok (price + pp).

(** The [while True] loop of [tree_analysis]; returns the variables
    [depth], [p_score], [status] and [price] at the [break]. *)
Fixpoint while_true (fuel : nat) (current : list node) (depth p_score : Q)
  (status : list (Q * Z)) (price : Q) {struct fuel}
  : result (Q * Q * list (Q * Z) * Q) :=
  match fuel with
  | O => Raise OutOfFuel
  | S fuel' =>
      let depth := Qred (depth + (1 # 2)) in
      r <- for_each collect current (0%Z, []) ;;
      let '(num_child, temp) := r in
      if (num_child =? 0)%Z then Ok (depth, p_score, status, price)
      else
        r <- (if fractional depth then
                p <- for_each times_plausibility temp p_score ;; Ok (p, price)
              else
                pr <- for_each plus_ppg temp price ;; Ok (p_score, pr)) ;;
        let '(p_score, price) := r in
        let status := status ++ [(depth, num_child)] in
        while_true fuel' temp depth p_score status price
  end.

(** Number of levels below a node, and below a frontier *)
Fixpoint height (n : node) : nat :=
  match n with
  | Node _ _ None => O
  | Node _ _ (Some cs) => S (fold_right (fun c acc => Nat.max (height c) acc) O cs)
  end.

Definition forest_height (l : list node) : nat :=
  fold_right (fun c acc => Nat.max (height c) acc) O l.

(** The part of [tree_analysis] from [depth = 0] on *)
Definition traverse (num_path : Z) (current : list node) : result analysis :=
  let depth := 0 in
  let p_score := 1 in
  let status := [(0, 1%Z)] in
  let price := 0 in
  r <- while_true (S (forest_height current)) current depth p_score status price ;;
  let '(depth, p_score, status, price) := r in
  let synthesizability := if (1 <? List.length status)%nat then 1%Z else 0%Z in
  let '(depth, price) :=
    if (int (depth - (1 # 2)) =? 0)%Z then (11%Z, -1)
    else (int (depth - (1 # 2)), price) in
  Ok (num_path, status, depth, p_score * inject_Z synthesizability,
      synthesizability, price).

(** [tree_analysis(current)] *)
Definition tree_analysis (current : search_result) : result analysis :=
  match error current with
  | Some _ => Ok ((-1)%Z, [], 11%Z, -1, (-1)%Z, -1)
  | None =>
      match price current with
      | Some p => Ok (0%Z, [], 0%Z, 1, 1%Z, p)
      | None =>
          ts <- getitem (trees current) ;;
          let num_path := Z.of_nat (List.length ts) in
          (* [num_path != 0]: the list has a first element *)
          match ts with
          | first :: _ =>
              p <- getitem (ppg first) ;;
              if negb (Qeq_bool p 0) then Ok (0%Z, [], 0%Z, 1, 1%Z, p)
              else traverse num_path [first]
          | [] => traverse num_path []
          end
      end
  end.

End Tree.

(** ** A small toolkit

    A toolkit that knows two molecules: the one without atoms, to which the
    empty text parses (as it does in RDKit), and a one-atom molecule written
    [C], with a single fragment that the fragment table does not list.  Every
    other text is rejected.  It serves to run the definitions on concrete
    inputs. *)

Module Small.

Local Open Scope R_scope.

Inductive molecule : Set := NoAtom | OneAtom.

Definition same (a b : molecule) : bool :=
  match a, b with
  | NoAtom, NoAtom | OneAtom, OneAtom => true
  | _, _ => false
  end.

Definition toolkit : Toolkit := {|
  Mol := molecule;
  Fingerprint := molecule;
  MolFromSmiles := fun s =>
    if (s =? EmptyString)%string then Some NoAtom
    else if (s =? "C")%string then Some OneAtom
    else None;
  SanitizeMol := fun _ => true;
  GetMorganFingerprint := fun m _ _ => m;
  GetAtomPairFingerprint := fun m => m;
  GetMorganFingerprintAsBitVect := fun m => m;
  GetNonzeroElements := fun fp =>
    match fp with NoAtom => [] | OneAtom => [(1%Z, 1%positive)] end;
  TanimotoSimilarity := fun a b => if same a b then 1 else 0;
  QED_qed := fun _ => 0;
  TPSA := fun _ => 0;
  MolLogP := fun _ => 0;
  GetNumAtoms := fun m => match m with NoAtom => O | OneAtom => 1%nat end;
  NumChiralCenters := fun _ => O;
  CalcNumSpiroAtoms := fun _ => O;
  CalcNumBridgeheadAtoms := fun _ => O;
  AtomRings := fun _ => [];
  _fscores := fun _ => None;
  drd2_predict_proba := fun _ => 0;
  gmean := fun _ => 0
|}.

(** A text that is no molecule *)
Definition unparseable : string := "C1CC(".

End Small.

(** ** Errors beyond those of the first part *)

Module PyMore.

Inductive error : Set :=
| Std (e : exn)
| NameError        (* raised by [askcos] on an unknown [output] *)
| AttributeError.  (* a method called on [None] *)

Inductive outcome (A : Type) : Type :=
| Return (a : A)
| Throw (e : error).

Arguments Return {A} a.
Arguments Throw {A} e.

Definition of_result {A : Type} (r : result A) : outcome A :=
  match r with
  | Ok a => Return a
  | Raise e => Throw (Std e)
  end.

Definition and_then {A B : Type} (o : outcome A) (k : A -> outcome B) : outcome B :=
  match o with
  | Return a => k a
  | Throw e => Throw e
  end.

End PyMore.

Import PyMore.

(** ** More of the external collaborators *)

Record Extension (tk : Toolkit) : Type := {
  (** [[a.GetSymbol() for a in mol.GetAtoms()]] *)
  GetAtomSymbols : Mol tk -> list string;
  (** [Chem.AddHs] *)
  AddHs : Mol tk -> Mol tk;
  (** [nx.cycle_basis(nx.Graph(Chem.rdmolops.GetAdjacencyMatrix(mol)))] *)
  cycle_basis : Mol tk -> list (list nat);
  (** [gsk3_model.predict_proba(fp)[0,1]] on the bit vector *)
  gsk3_predict_proba : Fingerprint tk -> R;
  (** [self.jnk3_model.predict_proba(fp)[0,1]] on the bit vector *)
  jnk3_predict_proba : Fingerprint tk -> R;
  (** [Generate.Gen2DFingerprint(mol, Gobbi_Pharm2D.factory)] *)
  Gen2DFingerprint : Mol tk -> Fingerprint tk;
  (** [len(mol.GetSubstructMatches(Chem.MolFromSmarts(smarts)))] *)
  SubstructMatchCount : Mol tk -> string -> nat
}.

(** ** The fragment table *)

Module FragmentTable.

(** The two loops of [readFragmentScores] over the unpickled rows, a row
    being its first entry, the score, and the fragment identifiers after it:
    [outDict[i[j]] = float(i[0])]. *)
Definition store_row (outDict : Z -> option R) (i : R * list Z) : Z -> option R :=
  fold_left
    (fun (d : Z -> option R) (id : Z) =>
       fun key => if (key =? id)%Z then Some (fst i) else d key)
    (snd i) outDict.

Definition readFragmentScores (rows : list (R * list Z)) : Z -> option R :=
  fold_left store_row rows (fun _ => None).

(** The score of the last row that lists [id], if any *)
Fixpoint last_listing (rows : list (R * list Z)) (id : Z) : option R :=
  match rows with
  | [] => None
  | row :: rest =>
      match last_listing rest id with
      | Some s => Some s
      | None => if existsb (Z.eqb id) (snd row) then Some (fst row) else None
      end
  end.

(** Number of fragment occurrences of a fingerprint, and the sum of the
    first [n] cells of a folded vector *)
Definition occurrences (elements : list (Z * positive)) : Z :=
  fold_right (fun kv acc => (Zpos (snd kv) + acc)%Z) 0%Z elements.

Fixpoint sum_cells (nfp : Z -> Z) (n : nat) : Z :=
  match n with
  | O => 0%Z
  | S k => (sum_cells nfp k + nfp (Z.of_nat k))%Z
  end.

End FragmentTable.

(** ** Shapes of formula tokens *)

Module FormulaShape.




End FormulaShape.

(** ** More oracles *)

Module MoreOracles.

Local Open Scope R_scope.

Section WithExtension.

Variable tk : Toolkit.
Variable ext : Extension tk.

(** [penalized_logp(s)]; [s] may be [None]. *)
Definition penalized_logp (s : option string) : result R :=
  match s with
  | None => Ok (- 100.0)
  | Some s =>
      match MolFromSmiles tk s with
      | None => Ok (- 100.0)
      | Some mol =>
          let logP_mean := 2.4570953396190123 in
          let logP_std := 1.434324401111988 in
          let SA_mean := - 3.0525811293166134 in
          let SA_std := 0.8335207024513095 in
          let cycle_mean := - 0.0485696876403053 in
          let cycle_std := 0.2860212110245455 in
          let log_p := MolLogP tk mol in
          sa <- SAscore.calculateScore tk mol ;;
          let SA := - sa in
          (* cycle score *)
          let cycle_list := cycle_basis ext mol in
          let cycle_length :=
            match cycle_list with
            | [] => O
            | _ => list_max (map (@List.length nat) cycle_list)
            end in
          let cycle_length :=
            if (cycle_length <=? 6)%nat then O else (cycle_length - 6)%nat in
          let cycle_score := - INR cycle_length in
          let normalized_log_p := (log_p - logP_mean) / logP_std in
          let normalized_SA := (SA - SA_mean) / SA_std in
          let normalized_cycle := (cycle_score - cycle_mean) / cycle_std in
          Ok (normalized_log_p + normalized_SA + normalized_cycle)
      end
  end.

(** [gsk3b(smiles)], the classifier being loaded *)
Definition gsk3b (smiles : string) : result R :=
  let molecule := Oracle.smiles_to_rdkit_mol tk smiles in
  mol <- rdkit_arg molecule ;;
  let fp := GetMorganFingerprintAsBitVect tk mol in
  let gsk3_score := gsk3_predict_proba ext fp in
  Ok gsk3_score.

(** [jnk3.__call__(smiles)] *)
Definition jnk3_call (smiles : string) : result R :=
  let molecule := Oracle.smiles_to_rdkit_mol tk smiles in
  mol <- rdkit_arg molecule ;;
  let fp := GetMorganFingerprintAsBitVect tk mol in
  let jnk3_score := jnk3_predict_proba ext fp in
  Ok jnk3_score.

(** An instance of [similarity_meta] *)
Record similarity_meta : Type := {
  similarity_func : string -> result (Fingerprint tk);
  target_fp : Fingerprint tk;
  modifier_func : option ScoreModifier
}.

(** [similarity_meta.__init__(target_smiles, fp, modifier_func)] *)
Definition similarity_meta_init (target_smiles fp : string)
  (modifier_func : option ScoreModifier) : result similarity_meta :=
  match Oracle.fp2fpfunc tk fp with
  | None => Raise KeyError
  | Some f =>
      t <- f target_smiles ;;
      Ok {| similarity_func := f; target_fp := t; modifier_func := modifier_func |}
  end.

(** [similarity_meta.__call__(test_smiles)] *)
Definition similarity_meta_call (self : similarity_meta) (test_smiles : string)
  : result scalar :=
  test_fp <- similarity_func self test_smiles ;;
  let similarity_value := TanimotoSimilarity tk (target_fp self) test_fp in
  match modifier_func self with
  | None => Ok (PyFloat similarity_value)
  | Some modifier => call modifier (PyFloat similarity_value)
  end.

(** [AtomCounter.__call__(mol)] for the counter of [element]; [mol] may be
    [None]. *)
Definition AtomCounter_call (element : string) (mol : option (Mol tk)) : outcome Z :=
  and_then
    (if (element =? "H")%string then
       and_then (of_result (rdkit_arg mol)) (fun m => Return (Some (AddHs ext m)))
     else Return mol)
    (fun mol =>
       match mol with
       | None => Throw AttributeError
       | Some m =>
           Return (Z.of_nat
                     (List.length
                        (filter (fun a => (a =? element)%string)
                           (GetAtomSymbols ext m))))
       end).

(** [np.mean] of a list *)
Definition np_mean (l : list R) : R :=
  fold_right Rplus 0 l / INR (List.length l).

(** An instance of [Isomer_scoring] *)
Record Isomer_scoring : Type := {
  mean_func : list R -> R;
  total_atom_modifier : ScoreModifier;
  AtomCounter_Modifier_lst : list (string * ScoreModifier)
}.

(** [Isomer_scoring.__init__(target_smiles, means)] *)
Definition Isomer_scoring_init (target_smiles means : string)
  : result Isomer_scoring :=
  if ((means =? "geometric") || (means =? "arithmetic"))%string then
    let mean_func :=
      if (means =? "geometric")%string then gmean tk else np_mean in
    atom2cnt_lst <- Formula.parse_molecular_formula target_smiles ;;
    let total_atom_num := Formula.total_atom_num atom2cnt_lst in
    Ok {| mean_func := mean_func;
          total_atom_modifier := GaussianModifier (IZR total_atom_num) 2.0;
          AtomCounter_Modifier_lst :=
            map (fun ac : string * Z =>
                   (fst ac, GaussianModifier (IZR (snd ac)) 1.0))
              atom2cnt_lst |}
  else Raise AssertionError.

(** The loop of [Isomer_scoring.__call__] over the counters *)
Fixpoint counter_scores (molecule : option (Mol tk))
  (lst : list (string * ScoreModifier)) (all_scores : list scalar)
  : outcome (list scalar) :=
  match lst with
  | [] => Return all_scores
  | (atom, modifier_func) :: rest =>
      and_then (AtomCounter_call atom molecule) (fun n =>
      and_then (of_result (call modifier_func (PyFloat (IZR n)))) (fun y =>
      counter_scores molecule rest (all_scores ++ [y])))
  end.

(** [Isomer_scoring.__call__(test_smiles)] *)
Definition Isomer_scoring_call (self : Isomer_scoring) (test_smiles : string)
  : outcome R :=
  let molecule := Oracle.smiles_to_rdkit_mol tk test_smiles in
  and_then (counter_scores molecule (AtomCounter_Modifier_lst self) [])
    (fun all_scores =>
  and_then (of_result (Formula.parse_molecular_formula test_smiles))
    (fun atom2cnt_lst =>
  let total_atom_num := Formula.total_atom_num atom2cnt_lst in
  and_then (of_result (call (total_atom_modifier self)
                         (PyFloat (IZR total_atom_num))))
    (fun y =>
  let all_scores := all_scores ++ [y] in
  Return (mean_func self (map val all_scores))))).

End WithExtension.

End MoreOracles.

(** ** The hop objectives and their shared globals *)

Module Hop.

Local Open Scope R_scope.

Section WithExtension.

Variable tk : Toolkit.
Variable ext : Extension tk.

(** An instance of [SMARTS_scoring]: the pattern text and the flag *)
Record SMARTS_scoring : Type := {
  target_smarts : string;
  inverse : bool
}.

(** [SMARTS_scoring.__call__(mol)]; [mol] may be [None]. *)
Definition SMARTS_scoring_call (self : SMARTS_scoring) (mol : option (Mol tk))
  : outcome R :=
  match mol with
  | None => Throw AttributeError
  | Some m =>
      let matches := SubstructMatchCount ext m (target_smarts self) in
      if (0 <? matches)%nat then
        if inverse self then Return 0 else Return 1
      else
        if inverse self then Return 1 else Return 0
  end.

(** [get_PHCO_fingerprint(mol)]; [mol] may be [None]. *)
Definition get_PHCO_fingerprint (mol : option (Mol tk)) : outcome (Fingerprint tk) :=
  and_then (of_result (rdkit_arg mol)) (fun m => Return (Gen2DFingerprint ext m)).

(** The module globals that [deco_hop] and [scaffold_hop] set and read; a
    name is absent until one of them assigns it. *)
Record Globals : Type := {
  pharmacophor_fp : option (Fingerprint tk);
  deco1_smarts_scoring : option SMARTS_scoring;
  deco2_smarts_scoring : option SMARTS_scoring;
  scaffold_smarts_scoring : option SMARTS_scoring;
  deco_smarts_scoring : option SMARTS_scoring
}.

Definition fresh : Globals := {|
  pharmacophor_fp := None;
  deco1_smarts_scoring := None;
  deco2_smarts_scoring := None;
  scaffold_smarts_scoring := None;
  deco_smarts_scoring := None
|}.

(** Reading a global name *)
Definition read {A : Type} (v : option A) : outcome A :=
  match v with
  | Some a => Return a
  | None => Throw NameError
  end.

Definition pharmacophor_smiles : string :=
  "CCCOc1cc2ncnc(Nc3ccc4ncsc4c3)c2cc1S(=O)(=O)C(C)(C)C".

Definition scaffold_smarts : string :=
  "[#7]-c1n[c;h1]nc2[c;h1]c(-[#8])[c;h0][c;h1]c12".

(** The body of [deco_hop] below the initialisation of the globals *)
Definition deco_hop_body (g : Globals) (test_smiles : string) : outcome R :=
  let molecule := Oracle.smiles_to_rdkit_mol tk test_smiles in
  and_then (get_PHCO_fingerprint molecule) (fun fp =>
  and_then (of_result (ClippedScoreModifier_init 0.85 0 1 0))
    (fun similarity_modifier =>
  and_then (read (pharmacophor_fp g)) (fun pharmacophor_fp =>
  and_then (of_result
              (call similarity_modifier
                 (PyFloat (TanimotoSimilarity tk fp pharmacophor_fp))))
    (fun similarity_value =>
  and_then (read (deco1_smarts_scoring g)) (fun deco1 =>
  and_then (SMARTS_scoring_call deco1 molecule) (fun deco1_score =>
  and_then (read (deco2_smarts_scoring g)) (fun deco2 =>
  and_then (SMARTS_scoring_call deco2 molecule) (fun deco2_score =>
  and_then (read (scaffold_smarts_scoring g)) (fun scaffold =>
  and_then (SMARTS_scoring_call scaffold molecule) (fun scaffold_score =>
  let all_scores :=
    MoreOracles.np_mean
      [val similarity_value; deco1_score; deco2_score; scaffold_score] in
  Return all_scores)))))))))).

(** [deco_hop(test_smiles)]: the result and the globals it leaves *)
Definition deco_hop (g : Globals) (test_smiles : string) : outcome R * Globals :=
  let init :=
    match pharmacophor_fp g with
    | Some _ => Return g
    | None =>
        let pharmacophor_mol := Oracle.smiles_to_rdkit_mol tk pharmacophor_smiles in
        and_then (get_PHCO_fingerprint pharmacophor_mol) (fun fp =>
        Return {| pharmacophor_fp := Some fp;
                  deco1_smarts_scoring :=
                    Some {| target_smarts := "CS([#6])(=O)=O"; inverse := true |};
                  deco2_smarts_scoring :=
                    Some {| target_smarts := "[#7]-c1ccc2ncsc2c1";
                            inverse := true |};
                  scaffold_smarts_scoring :=
                    Some {| target_smarts := scaffold_smarts; inverse := false |};
                  deco_smarts_scoring := deco_smarts_scoring g |})
    end in
  match init with
  | Throw e => (Throw e, g)
  | Return g1 => (deco_hop_body g1 test_smiles, g1)
  end.

(** The body of [scaffold_hop] below the initialisation of the globals *)
Definition scaffold_hop_body (g : Globals) (test_smiles : string) : outcome R :=
  let molecule := Oracle.smiles_to_rdkit_mol tk test_smiles in
  and_then (get_PHCO_fingerprint molecule) (fun fp =>
  and_then (of_result (ClippedScoreModifier_init 0.75 0 1 0))
    (fun similarity_modifier =>
  and_then (read (pharmacophor_fp g)) (fun pharmacophor_fp =>
  and_then (of_result
              (call similarity_modifier
                 (PyFloat (TanimotoSimilarity tk fp pharmacophor_fp))))
    (fun similarity_value =>
  and_then (read (deco_smarts_scoring g)) (fun deco =>
  and_then (SMARTS_scoring_call deco molecule) (fun deco_score =>
  and_then (read (scaffold_smarts_scoring g)) (fun scaffold =>
  and_then (SMARTS_scoring_call scaffold molecule) (fun scaffold_score =>
  let all_scores :=
    MoreOracles.np_mean [val similarity_value; deco_score; scaffold_score] in
  Return all_scores)))))))).

Definition is_none {A : Type} (v : option A) : bool :=
  match v with Some _ => false | None => true end.

(** [scaffold_hop(test_smiles)]: the result and the globals it leaves *)
Definition scaffold_hop (g : Globals) (test_smiles : string)
  : outcome R * Globals :=
  let init :=
    if is_none (pharmacophor_fp g) || is_none (scaffold_smarts_scoring g)
       || is_none (deco_smarts_scoring g)
    then
      let pharmacophor_mol := Oracle.smiles_to_rdkit_mol tk pharmacophor_smiles in
      and_then (get_PHCO_fingerprint pharmacophor_mol) (fun fp =>
      Return {| pharmacophor_fp := Some fp;
                deco1_smarts_scoring := deco1_smarts_scoring g;
                deco2_smarts_scoring := deco2_smarts_scoring g;
                deco_smarts_scoring :=
                  Some {| target_smarts :=
                            "[#6]-[#6]-[#6]-[#8]-[#6]~[#6]~[#6]~[#6]~[#6]-[#7]-c1ccc2ncsc2c1";
                          inverse := false |};
                scaffold_smarts_scoring :=
                  Some {| target_smarts := scaffold_smarts; inverse := true |} |})
    else Return g in
  match init with
  | Throw e => (Throw e, g)
  | Return g1 => (scaffold_hop_body g1 test_smiles, g1)
  end.

End WithExtension.

End Hop.

(** ** The ASKCOS oracle *)

Module Askcos.

Local Open Scope Q_scope.

(** The planning server: its answer to the price request, and its answer to
    the i-th tree builder request (counted from 0). *)
Record server : Type := {
  price_api : Tree.search_result;
  treebuilder_api : nat -> Tree.search_result
}.

(** What [askcos] returns: one component of the analysis, an integer or a
    number ([NoAnswer] is the [None] of a function that ends without
    [return]). *)
Inductive answer : Type :=
| IntAnswer (z : Z)
| NumAnswer (q : Q)
| NoAnswer.

(** [for _ in range(num_trials)]: request a tree, stop at the first answer
    without [error].  [i] counts the tree builder requests made so far; the
    loop returns the last answer received and the count. *)
Fixpoint trials (srv : server) (num_trials : nat) (i : nat)
  (resp : Tree.search_result) : Tree.search_result * nat :=
  match num_trials with
  | O => (resp, i)
  | S n =>
      let resp := treebuilder_api srv i in
      match Tree.error resp with
      | None => (resp, S i)
      | Some _ => trials srv n (S i) resp
      end
  end.

Definition known_output (output : string) : bool :=
  ((output =? "num_step") || (output =? "plausibility")
   || (output =? "synthesizability") || (output =? "price"))%string.

(** [askcos(smiles, host_ip, output, num_trials=...)] with [save_json] off:
    the value returned or the error raised, and the number of requests sent
    to the server. *)
Definition askcos (srv : server) (output : string) (num_trials : nat)
  : outcome answer * nat :=
  if negb (known_output output) then (Throw NameError, O)
  else
    let resp := price_api srv in
    match Tree.getitem (Tree.price resp) with
    | Raise e => (Throw (Std e), 1%nat)
    | Ok p =>
        let '(resp, n) :=
          if Qeq_bool p 0 then trials srv num_trials O resp else (resp, O) in
        match Tree.tree_analysis resp with
        | Raise e => (Throw (Std e), S n)
        | Ok (num_path, status, depth, p_score, synthesizability, price) =>
            (Return
               (if (output =? "plausibility")%string then NumAnswer p_score
                else if (output =? "num_step")%string then IntAnswer depth
                else if (output =? "synthesizability")%string
                     then IntAnswer synthesizability
                else if (output =? "price")%string then NumAnswer price
                else NoAnswer),
             S n)
        end
    end.

End Askcos.

(** ** The small toolkit, extended *)

Module SmallMore.

Definition extension : Extension Small.toolkit := {|
  GetAtomSymbols := fun m : Mol Small.toolkit =>
    match m with Small.NoAtom => [] | Small.OneAtom => ["C"%string] end;
  AddHs := fun m : Mol Small.toolkit => m;
  cycle_basis := fun _ => [];
  gsk3_predict_proba := fun _ => 0%R;
  jnk3_predict_proba := fun _ => 0%R;
  Gen2DFingerprint := fun m : Mol Small.toolkit => m;
  SubstructMatchCount := fun _ _ => O
|}.

(** A server for which the compound is not purchasable and whose tree
    builder fails twice before it answers with one tree of two levels *)
Definition server : Askcos.server := {|
  Askcos.price_api :=
    {| Tree.error := None; Tree.price := Some 0%Q; Tree.trees := None |};
  Askcos.treebuilder_api := fun i =>
    if (i <? 2)%nat then
      {| Tree.error := Some "celery"%string; Tree.price := None;
         Tree.trees := None |}
    else
      {| Tree.error := None; Tree.price := None;
         Tree.trees :=
           Some [Tree.Node (Some 0%Q) None
                   (Some [Tree.Node None (Some (9 # 10)%Q)
                            (Some [Tree.Node (Some 1%Q) None (Some []);
                                   Tree.Node (Some 2%Q) None (Some [])])])] |}
|}.

(** A toolkit whose molecules are texts: it accepts the reference structure
    of the hop objectives and the text [C], and rejects every other text. *)
Definition text_toolkit : Toolkit := {|
  Mol := string;
  Fingerprint := string;
  MolFromSmiles := fun s =>
    if (s =? Hop.pharmacophor_smiles)%string || (s =? "C")%string
    then Some s else None;
  SanitizeMol := fun _ => true;
  GetMorganFingerprint := fun m _ _ => m;
  GetAtomPairFingerprint := fun m => m;
  GetMorganFingerprintAsBitVect := fun m => m;
  GetNonzeroElements := fun _ => [(1%Z, 1%positive)];
  TanimotoSimilarity := fun a b => if (a =? b)%string then 1%R else 0%R;
  QED_qed := fun _ => 0%R;
  TPSA := fun _ => 0%R;
  MolLogP := fun _ => 0%R;
  GetNumAtoms := fun _ => 1%nat;
  NumChiralCenters := fun _ => O;
  CalcNumSpiroAtoms := fun _ => O;
  CalcNumBridgeheadAtoms := fun _ => O;
  AtomRings := fun _ => [];
  _fscores := fun _ => None;
  drd2_predict_proba := fun _ => 0%R;
  gmean := fun _ => 0%R
|}.

Definition text_extension : Extension text_toolkit := {|
  GetAtomSymbols := fun _ => [];
  AddHs := fun m : Mol text_toolkit => m;
  cycle_basis := fun _ => [];
  gsk3_predict_proba := fun _ => 0%R;
  jnk3_predict_proba := fun _ => 0%R;
  Gen2DFingerprint := fun m : Mol text_toolkit => m;
  SubstructMatchCount := fun _ _ => O
|}.

End SmallMore.

(** An interpreter for the examples: its decimal digits are the ASCII digits
    and the Arabic-Indic digits U+0660 to U+0669, and integer texts are
    limited to 4300 digits. *)
Module SmallPy.

Definition interpreter : PyStr.Interpreter := {|
  PyStr.decimal := fun c =>
    if ((48 <=? c) && (c <=? 57))%N then Some (c - 48)%N
    else if ((1632 <=? c) && (c <=? 1641))%N then Some (c - 1632)%N
    else None;
  PyStr.int_max_str_digits := 4300
|}.

End SmallPy.

(** * Properties *)

Import SAscore Formula Oracle Tree.

(** ** Score modifiers *)

Section ModifierFacts.

Local Open Scope R_scope.

Lemma val_sub (a b : scalar) : val (sub a b) = val a - val b.
Proof. destruct a, b; reflexivity. Qed.

Lemma val_mul (a b : scalar) : val (mul a b) = val a * val b.
Proof. destruct a, b; reflexivity. Qed.

Lemma val_add (a b : scalar) : val (add a b) = val a + val b.
Proof. destruct a, b; reflexivity. Qed.

Lemma truediv_nonzero (a : scalar) (b : R) :
  b <> 0 -> exists d, truediv a (PyFloat b) = Ok d /\ val d = val a / b.
Proof.
  intros Hb. destruct a as [x|x]; simpl.
  - destruct (Req_EM_T b 0) as [E|_]; [contradiction|].
    eexists; split; reflexivity.
  - eexists; split; reflexivity.
Qed.

Lemma truediv_raises (a b : scalar) (e : exn) :
  truediv a b = Raise e -> e = ZeroDivisionError.
Proof.
  destruct a as [x|x], b as [y|y]; simpl; try discriminate.
  destruct (Req_EM_T y 0); [|discriminate].
  intros H; injection H as <-; reflexivity.
Qed.

Lemma pydiv_zero (x : R) : pydiv x 0 = Raise ZeroDivisionError.
Proof. unfold pydiv. destruct (Req_EM_T 0 0) as [_|N]; [reflexivity|now elim N]. Qed.

Lemma pydiv_nonzero (x y : R) : y <> 0 -> pydiv x y = Ok (x / y).
Proof. intros H. unfold pydiv. destruct (Req_EM_T y 0); [contradiction|reflexivity]. Qed.

Lemma Gaussian_call_val (mu sigma : R) (x : scalar) :
  sigma <> 0 ->
  exists y, Gaussian_call mu sigma x = Ok y
            /\ val y = exp (- 0.5 * ((val x - mu) / sigma) ^ 2).
Proof.
  intros Hs. unfold Gaussian_call.
  destruct (truediv_nonzero (sub x (PyFloat mu)) Hs) as (d & -> & Hd).
  simpl. eexists; split; [reflexivity|].
  simpl. rewrite Hd, val_sub. simpl. reflexivity.
Qed.

Lemma exp_le (a b : R) : a <= b -> exp a <= exp b.
Proof.
  intros [H| ->]; [left; now apply exp_increasing | right; reflexivity].
Qed.

Lemma scaled_square_le (a b s : R) :
  s <> 0 -> Rabs a <= Rabs b -> (a / s) ^ 2 <= (b / s) ^ 2.
Proof.
  intros Hs Hab.
  assert (Ha : a ^ 2 <= b ^ 2).
  { rewrite <- (pow2_abs a), <- (pow2_abs b).
    apply pow_incr. split; [apply Rabs_pos | exact Hab]. }
  unfold Rdiv. rewrite !Rpow_mult_distr.
  apply Rmult_le_compat_r; [|exact Ha].
  apply pow2_ge_0.
Qed.

(** C8. For a Gaussian modifier with [sigma > 0]: applied at [mu] it returns
    exactly 1, and it does not increase as the distance of the argument from
    [mu] grows: whenever [|x1 - mu| <= |x2 - mu|], the value at [x1] is at
    least the value at [x2]. *)
Theorem Gaussian_peak_and_monotone (mu sigma : R) :
  0 < sigma ->
  (forall x, val x = mu ->
     exists y, call (GaussianModifier mu sigma) x = Ok y /\ val y = 1)
  /\ (forall x1 x2, Rabs (val x1 - mu) <= Rabs (val x2 - mu) ->
        exists y1 y2,
          call (GaussianModifier mu sigma) x1 = Ok y1
          /\ call (GaussianModifier mu sigma) x2 = Ok y2
          /\ val y1 >= val y2).
Proof.
  intros Hs. assert (Hn : sigma <> 0) by lra. split.
  - intros x Hx. simpl.
    destruct (Gaussian_call_val mu x Hn) as (y & Hy & Hv).
    exists y. split; [exact Hy|]. rewrite Hv, Hx.
    replace (- 0.5 * ((mu - mu) / sigma) ^ 2) with 0 by (field; exact Hn).
    apply exp_0.
  - intros x1 x2 Hd. simpl.
    destruct (Gaussian_call_val mu x1 Hn) as (y1 & Hy1 & Hv1).
    destruct (Gaussian_call_val mu x2 Hn) as (y2 & Hy2 & Hv2).
    exists y1, y2. repeat split; try assumption.
    rewrite Hv1, Hv2. apply Rle_ge, exp_le.
    pose proof (@scaled_square_le _ _ _ Hn Hd). lra.
Qed.

Lemma Gaussian_peak_and_monotone_witness :
  0 < 1
  /\ (exists y, call (GaussianModifier 0 1) (PyFloat 0) = Ok y /\ val y = 1)
  /\ (exists y1 y2,
        call (GaussianModifier 0 1) (PyFloat 0) = Ok y1
        /\ call (GaussianModifier 0 1) (PyFloat 1) = Ok y2
        /\ val y1 >= val y2).
Proof.
  assert (H : 0 < 1) by lra.
  split; [exact H|].
  destruct (Gaussian_peak_and_monotone 0 H) as [Hpeak Hmono].
  split.
  - apply Hpeak. reflexivity.
  - apply Hmono. simpl. rewrite !Rminus_0_r, Rabs_R0, Rabs_R1. lra.
Defined.

End ModifierFacts.

Section ConstructionFacts.

Local Open Scope R_scope.

Ltac case_truediv :=
  match goal with
  | |- context [truediv ?a ?b] =>
      let E := fresh "E" in
      destruct (truediv a b) eqn:E; simpl; [discriminate|];
      let H := fresh "H" in
      intros H; injection H as <-; exact (@truediv_raises _ _ _ E)
  end.

(** The only failure a modifier can have when it is applied is a division by
    zero. *)
Lemma call_raises : forall (m : ScoreModifier) (x : scalar) (e : exn),
  call m x = Raise e -> e = ZeroDivisionError.
Proof.
  fix IH 1. intros m x e. destruct m as [ms| | | | | | | |]; simpl.
  - revert x. induction ms as [|m' ms' IHms]; intros x; simpl.
    + discriminate.
    + destruct (call m' x) as [s|e'] eqn:E; simpl.
      * apply IHms.
      * intros H. injection H as <-. exact (IH m' x e' E).
  - discriminate.
  - discriminate.
  - discriminate.
  - unfold Gaussian_call. case_truediv.
  - unfold Gaussian_call. case_truediv.
  - discriminate.
  - discriminate.
  - discriminate.
Qed.

Lemma clipped_init_cases (upper_x lower_x high_score low_score : R) :
  (~ low_score < high_score ->
   ClippedScoreModifier_init upper_x lower_x high_score low_score
   = Raise AssertionError)
  /\ (low_score < high_score -> upper_x = lower_x ->
      ClippedScoreModifier_init upper_x lower_x high_score low_score
      = Raise ZeroDivisionError)
  /\ (low_score < high_score -> upper_x <> lower_x ->
      exists slope,
        slope = (high_score - low_score) / (upper_x - lower_x)
        /\ ClippedScoreModifier_init upper_x lower_x high_score low_score
           = Ok (ClippedScoreModifier upper_x lower_x high_score low_score
                   slope (high_score - slope * upper_x))).
Proof.
  unfold ClippedScoreModifier_init.
  destruct (Rlt_dec low_score high_score) as [Hlt|Hge]; repeat split;
    try (intros; contradiction); try (intros; reflexivity).
  - intros _ ->. rewrite Rminus_diag, pydiv_zero. reflexivity.
  - intros _ Hne. rewrite pydiv_nonzero by lra. simpl.
    eexists; split; reflexivity.
Qed.

Lemma smooth_clipped_init_cases (upper_x lower_x high_score low_score : R) :
  (~ low_score < high_score ->
   SmoothClippedScoreModifier_init upper_x lower_x high_score low_score
   = Raise AssertionError)
  /\ (low_score < high_score -> upper_x = lower_x ->
      SmoothClippedScoreModifier_init upper_x lower_x high_score low_score
      = Raise ZeroDivisionError)
  /\ (low_score < high_score -> upper_x <> lower_x ->
      SmoothClippedScoreModifier_init upper_x lower_x high_score low_score
      = Ok (SmoothClippedScoreModifier upper_x lower_x high_score low_score
              (4 / (upper_x - lower_x)) ((upper_x + lower_x) / 2)
              (high_score - low_score))).
Proof.
  unfold SmoothClippedScoreModifier_init.
  destruct (Rlt_dec low_score high_score) as [Hlt|Hge]; repeat split;
    try (intros; contradiction); try (intros; reflexivity).
  - intros _ ->. rewrite Rminus_diag, pydiv_zero. reflexivity.
  - intros _ Hne. rewrite pydiv_nonzero by lra. reflexivity.
Qed.

(** Not every variant validates its parameters: a Gaussian modifier with
    [sigma = 0] is constructed, and fails when it is applied to a Python
    float, not when it is built. *)
Lemma gaussian_zero_sigma_fails_at_call :
  construct (NewGaussian 0 0) = Ok (GaussianModifier 0 0)
  /\ call (GaussianModifier 0 0) (PyFloat 1) = Raise ZeroDivisionError.
Proof.
  split; [reflexivity|].
  simpl. unfold Gaussian_call. simpl.
  destruct (Req_EM_T 0 0) as [_|N]; [reflexivity|now elim N].
Qed.

(** C6, as the code has it. The clipped and the smooth clipped modifier check
    [low_score < high_score] when they are constructed: a violation fails
    there with the assertion error, a modifier that was constructed satisfies
    it and returns a value whenever it is applied.  The other variants check
    nothing at construction, and no variant fails with the assertion error
    when it is applied. *)
Theorem invariants_checked_at_construction (c : Construction) :
  (~ asserted_invariant c -> construct c = Raise AssertionError)
  /\ (forall m, construct c = Ok m -> asserted_invariant c)
  /\ (forall m x, construct c = Ok m -> call m x <> Raise AssertionError)
  /\ (forall m x, construct c = Ok m ->
        match c with
        | NewClipped _ _ _ _ | NewSmoothClipped _ _ _ _ => returns (call m x)
        | _ => True
        end).
Proof.
  repeat split.
  - destruct c; simpl; intros H; try (exfalso; apply H; exact I).
    + apply clipped_init_cases; exact H.
    + apply smooth_clipped_init_cases; exact H.
  - intros m. destruct c; simpl; intros H; try exact I.
    + unfold ClippedScoreModifier_init in H.
      destruct (Rlt_dec low_score high_score); [assumption|discriminate].
    + unfold SmoothClippedScoreModifier_init in H.
      destruct (Rlt_dec low_score high_score); [assumption|discriminate].
  - intros m x _ H. apply call_raises in H. discriminate.
  - intros m x. destruct c; try (intros; exact I); simpl.
    + unfold ClippedScoreModifier_init.
      destruct (Rlt_dec low_score high_score); [|discriminate].
      destruct (pydiv _ _); simpl; [|discriminate].
      intros H. injection H as <-. eexists. reflexivity.
    + unfold SmoothClippedScoreModifier_init.
      destruct (Rlt_dec low_score high_score); [|discriminate].
      destruct (pydiv _ _); simpl; [|discriminate].
      intros H. injection H as <-. eexists. reflexivity.
Qed.

Lemma invariants_checked_at_construction_witness :
  ~ asserted_invariant (NewClipped 1 0 0 1)
  /\ construct (NewClipped 1 0 0 1) = Raise AssertionError
  /\ construct (NewSmoothClipped 1 0 0 0) = Raise AssertionError
  /\ (exists m, construct (NewClipped 1 0 1 0) = Ok m
                /\ call m (PyFloat 2) <> Raise AssertionError
                /\ returns (call m (PyFloat 2))).
Proof.
  assert (H1 : ~ asserted_invariant (NewClipped 1 0 0 1)) by (simpl; lra).
  assert (H2 : ~ asserted_invariant (NewSmoothClipped 1 0 0 0)) by (simpl; lra).
  split; [exact H1|].
  split; [exact (proj1 (invariants_checked_at_construction _) H1)|].
  split; [exact (proj1 (invariants_checked_at_construction _) H2)|].
  assert (Hlt : 0 < 1) by lra. assert (Hne : 1 <> 0) by lra.
  destruct (proj2 (proj2 (clipped_init_cases 1 0 1 0)) Hlt Hne) as (s & _ & Hs).
  eexists. split; [exact Hs|].
  destruct (invariants_checked_at_construction (NewClipped 1 0 1 0))
    as (_ & _ & Hcall & Htotal).
  split; [exact (Hcall _ (PyFloat 2) Hs)|exact (Htotal _ (PyFloat 2) Hs)].
Defined.

(** C10. With [low_score < high_score] satisfied, the constructors of the
    clipped and the smooth clipped modifier fail with a division by zero when
    [upper_x] equals [lower_x], and succeed when they differ:
    [upper_x <> lower_x] is a further precondition of both. *)
Theorem clipped_constructors_need_distinct_x
  (upper_x lower_x high_score low_score : R) :
  low_score < high_score ->
  (upper_x = lower_x ->
   ClippedScoreModifier_init upper_x lower_x high_score low_score
   = Raise ZeroDivisionError
   /\ SmoothClippedScoreModifier_init upper_x lower_x high_score low_score
      = Raise ZeroDivisionError)
  /\ (upper_x <> lower_x ->
      returns (ClippedScoreModifier_init upper_x lower_x high_score low_score)
      /\ returns (SmoothClippedScoreModifier_init upper_x lower_x high_score
                    low_score)).
Proof.
  intros Hlt. split.
  - intros E. split.
    + now apply clipped_init_cases.
    + now apply smooth_clipped_init_cases.
  - intros Hne. split.
    + destruct (proj2 (proj2 (clipped_init_cases upper_x lower_x high_score
                                low_score)) Hlt Hne) as (s & _ & Hs).
      eexists; exact Hs.
    + eexists. now apply smooth_clipped_init_cases.
Qed.

Lemma clipped_constructors_need_distinct_x_witness :
  0 < 1
  /\ ClippedScoreModifier_init 0 0 1 0 = Raise ZeroDivisionError
  /\ SmoothClippedScoreModifier_init 0 0 1 0 = Raise ZeroDivisionError.
Proof.
  assert (H : 0 < 1) by lra.
  split; [exact H|].
  exact (proj1 (clipped_constructors_need_distinct_x 0 0 H) eq_refl).
Defined.

End ConstructionFacts.

(** ** Synthetic accessibility *)

Section SAFacts.

Local Open Scope R_scope.

Lemma math_log_pos (x : R) : 0 < x -> math_log x = Ok (ln x).
Proof. intros H. unfold math_log. destruct (Rlt_dec 0 x); [reflexivity|contradiction]. Qed.

Lemma math_log10_pos (x : R) : 0 < x -> math_log10 x = Ok (ln x / ln 10).
Proof. intros H. unfold math_log10. destruct (Rlt_dec 0 x); [reflexivity|contradiction]. Qed.

Lemma math_log10_count (n : nat) : math_log10 (INR n + 1) = Ok (ln (INR n + 1) / ln 10).
Proof. apply math_log10_pos. pose proof (pos_INR n). lra. Qed.


Lemma smooth_above (s : R) : 8 < s -> smooth s = Ok (8 + ln (s - 8)).
Proof.
  intros H. unfold smooth. destruct (Rlt_dec 8 s); [|contradiction].
  rewrite math_log_pos by lra. simpl.
  replace (s + 1 - 9) with (s - 8) by ring. reflexivity.
Qed.

Lemma smooth_below (s : R) : s <= 8 -> smooth s = Ok s.
Proof.
  intros H. unfold smooth. destruct (Rlt_dec 8 s); [lra|reflexivity].
Qed.

Lemma smooth_returns (s : R) : exists v, smooth s = Ok v.
Proof.
  destruct (Rlt_dec 8 s) as [H|H].
  - eexists. now apply smooth_above.
  - eexists. apply smooth_below. lra.
Qed.

Lemma clamp_range (s : R) : 1 <= clamp s <= 10.
Proof.
  unfold clamp. destruct (Rlt_dec 10 s); [lra|].
  destruct (Rlt_dec s 1); lra.
Qed.

Lemma fragment_sums_step (fscores : Z -> option R) (fps : list (Z * positive))
  (acc : R * Z) :
  (snd acc <= snd (fold_left (fragment_step fscores) fps acc))%Z.
Proof.
  revert acc. induction fps as [|[bitId v] fps IH]; intros [score1 nf]; simpl.
  - lia.
  - etransitivity; [|apply IH]. simpl. lia.
Qed.

Lemma fragment_sums_nf_pos (fscores : Z -> option R) (fps : list (Z * positive)) :
  fps <> [] -> (0 < snd (fragment_sums fscores fps))%Z.
Proof.
  destruct fps as [|[bitId v] fps]; [intros H; now elim H|intros _].
  unfold fragment_sums. simpl.
  eapply Z.lt_le_trans; [|apply fragment_sums_step]. simpl. lia.
Qed.

(** Without fragments the normalisation [score1 /= nf] divides by zero. *)
Lemma calculateScore_no_fragment (tk : Toolkit) (m : Mol tk) :
  GetNonzeroElements tk (GetMorganFingerprint tk m 2 false) = [] ->
  calculateScore tk m = Raise ZeroDivisionError.
Proof.
  intros H. unfold calculateScore. rewrite H. simpl.
  rewrite pydiv_zero. reflexivity.
Qed.

(** With a fragment, [calculateScore] returns the clamped, smoothed, rescaled
    raw score. *)
Lemma calculateScore_fragments (tk : Toolkit) (m : Mol tk) :
  GetNonzeroElements tk (GetMorganFingerprint tk m 2 false) <> [] ->
  exists raw v,
    smooth (rescale raw) = Ok v /\ calculateScore tk m = Ok (clamp v).
Proof.
  intros Hne. unfold calculateScore.
  pose proof (fragment_sums_nf_pos (_fscores tk) Hne) as Hnf.
  destruct (fragment_sums _ _) as [score1 nf]. simpl in Hnf.
  rewrite pydiv_nonzero by (apply not_0_IZR; lia). simpl.
  rewrite !math_log10_count. simpl.
  set (mac := if (0 <? _)%nat then math_log10 2 else Ok 0).
  assert (Hmac : exists p, mac = Ok p).
  { subst mac. destruct (0 <? _)%nat.
    - eexists. apply math_log10_pos. lra.
    - eexists. reflexivity. }
  destruct Hmac as (p & ->). simpl.
  set (fps := GetNonzeroElements tk (GetMorganFingerprint tk m 2 false)) in *.
  set (s3 := if (List.length fps <? GetNumAtoms tk m)%nat then _ else Ok 0).
  assert (Hs3 : exists q, s3 = Ok q).
  { subst s3. destruct (Nat.ltb_spec (List.length fps) (GetNumAtoms tk m)) as [Hlt|_].
    - assert (Hlen : (0 < List.length fps)%nat).
      { destruct fps; [now elim Hne|simpl; lia]. }
      assert (0 < INR (List.length fps)) by (apply lt_0_INR; exact Hlen).
      rewrite pydiv_nonzero by lra. simpl.
      rewrite math_log_pos.
      + simpl. eexists. reflexivity.
      + apply Rdiv_lt_0_compat; [|assumption].
        apply lt_0_INR. lia.
    - eexists. reflexivity. }
  destruct Hs3 as (q & ->). simpl.
  match goal with
  | |- context [smooth (rescale ?r)] =>
      destruct (smooth_returns (rescale r)) as (v & Hv); exists r, v
  end.
  split; [exact Hv|]. rewrite Hv. reflexivity.
Qed.

(** C4. What [SA] does on a text: the sentinel 100 when it does not parse; a
    value between 1 and 10 when it parses to a molecule with at least one
    fragment; and a division by zero, not a value, when it parses to a
    molecule without fragments (the empty molecule). *)
Theorem SA_cases (tk : Toolkit) (s : string) :
  match MolFromSmiles tk s with
  | None => SA tk (Some s) = Ok 100
  | Some m =>
      match GetNonzeroElements tk (GetMorganFingerprint tk m 2 false) with
      | [] => SA tk (Some s) = Raise ZeroDivisionError
      | _ :: _ => exists v, SA tk (Some s) = Ok v /\ 1 <= v <= 10
      end
  end.
Proof.
  unfold SA. destruct (MolFromSmiles tk s) as [m|]; [|reflexivity].
  destruct (GetNonzeroElements tk (GetMorganFingerprint tk m 2 false)) eqn:E.
  - now apply calculateScore_no_fragment.
  - destruct (@calculateScore_fragments tk m) as (raw & v & _ & Hc).
    + rewrite E. discriminate.
    + exists (clamp v). split; [exact Hc|apply clamp_range].
Qed.









End SAFacts.

(** ** Unparseable candidates *)

Section FallbackFacts.

Local Open Scope R_scope.

Variable tk : Toolkit.

Lemma smiles_to_rdkit_mol_unparseable (s : string) :
  MolFromSmiles tk s = None -> smiles_to_rdkit_mol tk s = None.
Proof. intros H. unfold smiles_to_rdkit_mol. now rewrite H. Qed.

(** Each of the four fingerprint functions hands the failed parse to RDKit. *)
Lemma fp2fpfunc_unparseable (fp s : string)
  (f : string -> result (Fingerprint tk)) :
  fp2fpfunc tk fp = Some f -> MolFromSmiles tk s = None ->
  f s = Raise ArgumentError.
Proof.
  intros Hf Hs. unfold fp2fpfunc in Hf.
  repeat match type of Hf with
         | (if ?b then _ else _) = _ => destruct b
         end;
    try discriminate; injection Hf as <-;
    unfold smiles_2_fingerprint_ECFP4, smiles_2_fingerprint_FCFP4,
      smiles_2_fingerprint_AP, smiles_2_fingerprint_ECFP6;
    rewrite (smiles_to_rdkit_mol_unparseable _ Hs); reflexivity.
Qed.

Lemma clipped_default_init (upper_x : R) :
  upper_x <> 0 -> returns (ClippedScoreModifier_init upper_x 0 1 0).
Proof.
  intros H.
  assert (Hlt : 0 < 1) by lra. assert (Hne : upper_x <> 0) by exact H.
  destruct (proj2 (proj2 (clipped_init_cases upper_x 0 1 0)) Hlt Hne)
    as (sl & _ & Hs).
  eexists; exact Hs.
Qed.

Lemma osimertinib_mpo_body_unparseable (f4 f6 : Fingerprint tk) (s : string) :
  MolFromSmiles tk s = None ->
  osimertinib_mpo_body tk f4 f6 s = Raise ArgumentError.
Proof.
  intros Hs. unfold osimertinib_mpo_body.
  destruct (@clipped_default_init 0.8) as (m & ->); [lra|]. simpl.
  unfold smiles_2_fingerprint_FCFP4.
  rewrite (smiles_to_rdkit_mol_unparseable _ Hs). reflexivity.
Qed.

(** C3, as the code has it. On a candidate text that does not parse, [similarity] (in
    either position), [qed] and [drd2] return 0.0 and [SA] returns 100; the
    multi-property evaluators have no fallback: [rediscovery_meta.__call__]
    and [osimertinib_mpo] fail with the toolkit's error. *)
Theorem fallback_on_unparseable (s : string) :
  MolFromSmiles tk s = None ->
  (forall b, similarity tk (Some s) b = Ok 0 /\ similarity tk b (Some s) = Ok 0)
  /\ qed tk (Some s) = Ok 0
  /\ drd2 tk s = Ok 0
  /\ SA tk (Some s) = Ok 100
  /\ (forall target fp self,
        rediscovery_meta_init tk target fp = Ok self ->
        rediscovery_meta_call self s = Raise ArgumentError)
  /\ (forall g : Globals tk, fst (osimertinib_mpo g s) = Raise ArgumentError).
Proof.
  intros Hs. repeat split.
  - unfold similarity. rewrite Hs. now destruct b.
  - unfold similarity. destruct b as [b|]; [|reflexivity].
    rewrite Hs. now destruct (MolFromSmiles tk b).
  - unfold qed. now rewrite Hs.
  - unfold drd2. now rewrite Hs.
  - unfold SA. now rewrite Hs.
  - intros target fp self Hinit. unfold rediscovery_meta_init in Hinit.
    destruct (fp2fpfunc tk fp) as [f|] eqn:Hf; [|discriminate].
    destruct (f target) as [t|e]; [|discriminate].
    simpl in Hinit. injection Hinit as <-.
    unfold rediscovery_meta_call. simpl.
    now rewrite (fp2fpfunc_unparseable _ _ Hf Hs).
  - intros g. unfold osimertinib_mpo.
    destruct g as [[f4 f6]|].
    + simpl. now apply osimertinib_mpo_body_unparseable.
    + destruct (smiles_2_fingerprint_FCFP4 tk (osimertinib_smiles)) as [f4|e] eqn:E4.
      * simpl.
        destruct (smiles_2_fingerprint_ECFP6 tk (osimertinib_smiles)) as [f6|e] eqn:E6.
        -- simpl. now apply osimertinib_mpo_body_unparseable.
        -- simpl. unfold smiles_2_fingerprint_ECFP6 in E6.
           destruct (smiles_to_rdkit_mol tk osimertinib_smiles); simpl in E6;
             [discriminate|]. now injection E6 as <-.
      * simpl. unfold smiles_2_fingerprint_FCFP4 in E4.
        destruct (smiles_to_rdkit_mol tk osimertinib_smiles); simpl in E4;
          [discriminate|]. now injection E4 as <-.
Qed.

End FallbackFacts.

Lemma fallback_on_unparseable_witness :
  MolFromSmiles Small.toolkit Small.unparseable = None
  /\ qed Small.toolkit (Some Small.unparseable) = Ok 0%R
  /\ drd2 Small.toolkit Small.unparseable = Ok 0%R
  /\ SA Small.toolkit (Some Small.unparseable) = Ok 100%R.
Proof.
  assert (H : MolFromSmiles Small.toolkit Small.unparseable = None) by reflexivity.
  split; [exact H|].
  destruct (@fallback_on_unparseable Small.toolkit Small.unparseable H)
    as (_ & Hq & Hd & Hsa & _).
  repeat split; assumption.
Defined.

(** The objective evaluators are not total: with the target [C] and the
    fingerprint family ECFP4, the rediscovery objective fails on a candidate
    that does not parse, and so does [osimertinib_mpo] with its reference
    fingerprints in place. *)
Lemma objectives_raise_on_unparseable :
  MolFromSmiles Small.toolkit Small.unparseable = None
  /\ (exists self,
        rediscovery_meta_init Small.toolkit "C" "ECFP4" = Ok self
        /\ rediscovery_meta_call self Small.unparseable = Raise ArgumentError
        /\ ~ returns (rediscovery_meta_call self Small.unparseable))
  /\ fst (@osimertinib_mpo Small.toolkit (Some (Small.OneAtom, Small.OneAtom))
            Small.unparseable) = Raise ArgumentError.
Proof.
  split; [reflexivity|]. split.
  - eexists. split; [reflexivity|]. split; [reflexivity|].
    intros [v Hv]. discriminate Hv.
  - simpl. apply osimertinib_mpo_body_unparseable. reflexivity.
Qed.

(** ** Molecular formulas *)

Section FormulaFacts.

Local Open Scope string_scope.

Lemma span_length (p : ascii -> bool) (s : string) :
  (String.length (snd (span p s)) <= String.length s)%nat.
Proof.
  induction s as [|c rest IH]; simpl; [lia|].
  destruct (p c); [|simpl; lia].
  destruct (span p rest) as [a b]. simpl in *. lia.
Qed.





End FormulaFacts.

(** ** Molecular formulas as Python strings *)

Section PyStrFacts.

Local Open Scope list_scope.

Lemma is_upper_range (c : N) :
  PyStr.is_upper c = true <-> (65 <= c <= 90)%N.
Proof.
  unfold PyStr.is_upper. rewrite andb_true_iff, !N.leb_le. tauto.
Qed.

Lemma is_lower_range (c : N) :
  PyStr.is_lower c = true <-> (97 <= c <= 122)%N.
Proof.
  unfold PyStr.is_lower. rewrite andb_true_iff, !N.leb_le. tauto.
Qed.

Lemma is_digit_decimal (py : PyStr.Interpreter) (c : N) :
  PyStr.is_digit py c = true <-> PyStr.decimal py c <> None.
Proof.
  unfold PyStr.is_digit. destruct (PyStr.decimal py c); split; intros H;
    congruence.
Qed.

(** No decimal digit is a lowercase letter. *)
Lemma digit_not_lower (py : PyStr.Interpreter) (x : N) :
  PyStr.latin1_digits py -> PyStr.decimal py x <> None ->
  PyStr.is_lower x = false.
Proof.
  intros Hl Hd. unfold PyStr.is_lower.
  destruct (N.lt_ge_cases x 256) as [Hx|Hx].
  - rewrite (Hl x Hx) in Hd.
    destruct ((48 <=? x) && (x <=? 57))%N eqn:E; [|congruence].
    apply andb_true_iff in E. rewrite !N.leb_le in E.
    destruct (N.leb_spec 97 x); [lia|reflexivity].
  - destruct (N.leb_spec x 122); [lia|]. apply andb_false_r.
Qed.

Lemma str_span_lengths (p : N -> bool) (s : PyStr.str) :
  (List.length (fst (PyStr.span p s)) + List.length (snd (PyStr.span p s))
   = List.length s)%nat.
Proof.
  induction s as [|c rest IH]; simpl; [reflexivity|].
  destruct (p c); [|simpl; lia].
  destruct (PyStr.span p rest) as [a b]. simpl in *. lia.
Qed.

(** A greedy class stops where the text leaves the class. *)
Lemma str_span_app (p : N -> bool) (a rest : PyStr.str) :
  Forall (fun x => p x = true) a ->
  match rest with [] => True | x :: _ => p x = false end ->
  PyStr.span p (a ++ rest) = (a, rest).
Proof.
  intros Ha Hr. induction Ha as [|x a Hx _ IH]; simpl.
  - destruct rest as [|y rest]; [reflexivity|]. simpl. now rewrite Hr.
  - rewrite Hx, IH. reflexivity.
Qed.

Lemma str_findall_fuel_irrelevant (py : PyStr.Interpreter) :
  forall (n m : nat) (s : PyStr.str),
    (List.length s <= n)%nat -> (List.length s <= m)%nat ->
    PyStr.findall_fuel py n s = PyStr.findall_fuel py m s.
Proof.
  induction n as [|n IH]; intros m s Hn Hm.
  - destruct s; [|simpl in Hn; lia]. now destruct m.
  - destruct m as [|m].
    + destruct s; [reflexivity|simpl in Hm; lia].
    + destruct s as [|c rest]; [reflexivity|]. simpl in *.
      destruct (PyStr.is_upper c).
      * pose proof (str_span_lengths PyStr.is_lower rest) as H1.
        destruct (PyStr.span PyStr.is_lower rest) as [lows r1]. simpl in H1.
        pose proof (str_span_lengths (PyStr.is_digit py) r1) as H2.
        destruct (PyStr.span (PyStr.is_digit py) r1) as [digits r2].
        simpl in H2. f_equal. apply IH; lia.
      * apply IH; lia.
Qed.

(** The length of the text is fuel enough: more fuel changes nothing. *)
Lemma findall_steps_enough (py : PyStr.Interpreter) (n : nat) (s : PyStr.str) :
  (List.length s <= n)%nat -> PyStr.findall_fuel py n s = PyStr.findall py s.
Proof.
  intros H. unfold PyStr.findall. apply str_findall_fuel_irrelevant; lia.
Qed.

Lemma str_findall_skip (py : PyStr.Interpreter) (c : N) (rest : PyStr.str) :
  PyStr.is_upper c = false ->
  PyStr.findall py (c :: rest) = PyStr.findall py rest.
Proof. intros H. unfold PyStr.findall. simpl. now rewrite H. Qed.

(** One match of the pattern, given by where it ends *)
Lemma str_findall_token (py : PyStr.Interpreter) (c : N)
  (lows digits rest : PyStr.str) :
  PyStr.latin1_digits py ->
  PyStr.is_upper c = true ->
  Forall (fun x => PyStr.is_lower x = true) lows ->
  Forall (fun x => PyStr.decimal py x <> None) digits ->
  match rest with
  | [] => True
  | x :: _ =>
      PyStr.decimal py x = None /\ (digits = [] -> PyStr.is_lower x = false)
  end ->
  PyStr.findall py (c :: lows ++ digits ++ rest)
  = (c :: lows, digits) :: PyStr.findall py rest.
Proof.
  intros Hl Hc Hlows Hdigits Hrest.
  unfold PyStr.findall at 1. cbn [List.length PyStr.findall_fuel].
  rewrite Hc.
  assert (S1 : PyStr.span PyStr.is_lower (lows ++ digits ++ rest)
               = (lows, digits ++ rest)).
  { apply str_span_app; [exact Hlows|].
    destruct digits as [|d ds].
    - simpl. destruct rest as [|x rest]; [exact I|]. now apply Hrest.
    - simpl. apply (@digit_not_lower py d Hl). now inversion Hdigits. }
  assert (S2 : PyStr.span (PyStr.is_digit py) (digits ++ rest)
               = (digits, rest)).
  { apply str_span_app.
    - eapply Forall_impl; [|exact Hdigits]. intros x Hx.
      now apply is_digit_decimal.
    - destruct rest as [|x rest]; [exact I|].
      unfold PyStr.is_digit. now rewrite (proj1 Hrest). }
  rewrite S1, S2. f_equal. apply findall_steps_enough.
  rewrite !length_app. lia.
Qed.

(** The digits of a match are fewer than the characters of the text. *)
Lemma findall_fuel_digits_length (py : PyStr.Interpreter) :
  forall (n : nat) (s : PyStr.str),
    Forall (fun m => (List.length (snd m) < List.length s)%nat)
      (PyStr.findall_fuel py n s).
Proof.
  induction n as [|n IH]; intros s; [constructor|].
  destruct s as [|c rest]; [constructor|]. cbn [PyStr.findall_fuel].
  destruct (PyStr.is_upper c).
  - pose proof (str_span_lengths PyStr.is_lower rest) as H1.
    destruct (PyStr.span PyStr.is_lower rest) as [lows r1]. simpl in H1.
    pose proof (str_span_lengths (PyStr.is_digit py) r1) as H2.
    destruct (PyStr.span (PyStr.is_digit py) r1) as [digits r2]. simpl in H2.
    constructor.
    + simpl. lia.
    + eapply Forall_impl; [|apply (IH r2)]. intros m Hm. simpl in *. lia.
  - eapply Forall_impl; [|apply (IH rest)]. intros m Hm. simpl in *. lia.
Qed.

(** The loop appends to the results it starts from. *)
Lemma convert_acc (py : PyStr.Interpreter) (ms : list (PyStr.str * PyStr.str)) :
  forall acc,
    PyStr.convert py ms acc
    = (l <- PyStr.convert py ms [] ;; Ok (acc ++ l)).
Proof.
  induction ms as [|m ms IH]; intros acc.
  - simpl. now rewrite app_nil_r.
  - cbn [PyStr.convert].
    destruct (match snd m with [] => Ok 1%Z | _ :: _ => PyStr.int py (snd m) end)
      as [count|e]; [|reflexivity].
    cbn [bind]. rewrite (IH (acc ++ [(fst m, count)])).
    rewrite (IH ([] ++ [(fst m, count)])).
    destruct (PyStr.convert py ms []) as [l|e]; [|reflexivity].
    cbn [bind]. now rewrite <- app_assoc.
Qed.

(** The loop fails only where [int] refuses a run of digits. *)
Lemma convert_raises (py : PyStr.Interpreter) (ms : list (PyStr.str * PyStr.str)) :
  forall acc e,
    PyStr.convert py ms acc = Raise e ->
    e = ValueError
    /\ exists m, In m ms
         /\ (640 < List.length (snd m))%nat
         /\ (0 < PyStr.int_max_str_digits py < List.length (snd m))%nat.
Proof.
  induction ms as [|m ms IH]; intros acc e H; [discriminate|].
  cbn [PyStr.convert] in H.
  destruct (snd m) as [|d ds] eqn:Em.
  - cbn [bind] in H. destruct (IH _ _ H) as (He & m' & Hin & Hb).
    split; [exact He|]. exists m'. split; [now right|exact Hb].
  - unfold PyStr.int in H. cbn zeta in H.
    destruct ((640 <? List.length (d :: ds))%nat
              && (0 <? PyStr.int_max_str_digits py)%nat
              && (PyStr.int_max_str_digits py <? List.length (d :: ds))%nat)
      eqn:E.
    + cbn [bind] in H. injection H as <-. split; [reflexivity|].
      exists m. split; [now left|]. rewrite Em.
      rewrite !andb_true_iff, !Nat.ltb_lt in E. lia.
    + cbn [bind] in H. destruct (IH _ _ H) as (He & m' & Hin & Hb).
      split; [exact He|]. exists m'. split; [now right|exact Hb].
Qed.

Lemma parse_raises (py : PyStr.Interpreter) (formula : PyStr.str) (e : exn) :
  PyStr.parse_molecular_formula py formula = Raise e ->
  e = ValueError
  /\ (0 < PyStr.int_max_str_digits py)%nat
  /\ (PyStr.int_max_str_digits py + 1 < List.length formula)%nat
  /\ (641 < List.length formula)%nat.
Proof.
  intros H. unfold PyStr.parse_molecular_formula in H. cbn zeta in H.
  destruct (convert_raises _ _ _ H) as (He & m & Hin & H640 & Hlim).
  split; [exact He|].
  pose proof (findall_fuel_digits_length py (List.length formula) formula) as Hlen.
  rewrite Forall_forall in Hlen. specialize (Hlen m Hin). cbn beta in Hlen.
  unfold PyStr.str in *. lia.
Qed.

Lemma parse_skip (py : PyStr.Interpreter) (c : N) (rest : PyStr.str) :
  PyStr.is_upper c = false ->
  PyStr.parse_molecular_formula py (c :: rest)
  = PyStr.parse_molecular_formula py rest.
Proof.
  intros H. unfold PyStr.parse_molecular_formula.
  now rewrite str_findall_skip.
Qed.

Lemma parse_token (py : PyStr.Interpreter) (c : N)
  (lows digits rest : PyStr.str) :
  PyStr.latin1_digits py ->
  PyStr.is_upper c = true ->
  Forall (fun x => PyStr.is_lower x = true) lows ->
  Forall (fun x => PyStr.decimal py x <> None) digits ->
  match rest with
  | [] => True
  | x :: _ =>
      PyStr.decimal py x = None /\ (digits = [] -> PyStr.is_lower x = false)
  end ->
  PyStr.parse_molecular_formula py (c :: lows ++ digits ++ rest)
  = if ((640 <? List.length digits) && (0 <? PyStr.int_max_str_digits py)
        && (PyStr.int_max_str_digits py <? List.length digits))%nat
    then Raise ValueError
    else
      l <- PyStr.parse_molecular_formula py rest ;;
      Ok ((c :: lows,
           match digits with
           | [] => 1%Z
           | _ :: _ => PyStr.digits_value py digits
           end) :: l).
Proof.
  intros Hl Hc Hlows Hdigits Hrest. unfold PyStr.parse_molecular_formula.
  cbn zeta. rewrite str_findall_token by assumption.
  cbn [PyStr.convert fst snd]. destruct digits as [|d ds].
  - change ((640 <? List.length (@nil N))%nat) with false. cbn [andb bind].
    rewrite convert_acc. reflexivity.
  - unfold PyStr.int. cbn zeta.
    destruct ((640 <? List.length (d :: ds))%nat
              && (0 <? PyStr.int_max_str_digits py)%nat
              && (PyStr.int_max_str_digits py <? List.length (d :: ds))%nat);
      [reflexivity|].
    cbn [bind]. rewrite convert_acc. reflexivity.
Qed.

Lemma digits_value_snoc (py : PyStr.Interpreter) (digits : PyStr.str) (c : N) :
  PyStr.digits_value py (digits ++ [c])
  = (10 * PyStr.digits_value py digits
     + match PyStr.decimal py c with Some d => Z.of_N d | None => 0 end)%Z.
Proof.
  unfold PyStr.digits_value. rewrite fold_left_app. reflexivity.
Qed.

(** *** Texts of one-byte characters

  On a text of one-byte characters whose runs of digits [int] reads, the
  parser on Python strings does what the parser of [Formula] does. *)

Lemma of_string_length (s : string) :
  List.length (PyStr.of_string s) = String.length s.
Proof.
  unfold PyStr.of_string. rewrite length_map.
  induction s as [|c s IH]; simpl; [reflexivity|]. now rewrite IH.
Qed.

Lemma is_upper_byte (c : ascii) :
  PyStr.is_upper (N_of_ascii c) = Formula.is_upper c.
Proof.
  unfold PyStr.is_upper, Formula.is_upper, nat_of_ascii.
  destruct (N.leb_spec 65 (N_of_ascii c));
    destruct (N.leb_spec (N_of_ascii c) 90);
    destruct (Nat.leb_spec 65 (N.to_nat (N_of_ascii c)));
    destruct (Nat.leb_spec (N.to_nat (N_of_ascii c)) 90);
    cbn [andb]; try reflexivity; lia.
Qed.

Lemma is_lower_byte (c : ascii) :
  PyStr.is_lower (N_of_ascii c) = Formula.is_lower c.
Proof.
  unfold PyStr.is_lower, Formula.is_lower, nat_of_ascii.
  destruct (N.leb_spec 97 (N_of_ascii c));
    destruct (N.leb_spec (N_of_ascii c) 122);
    destruct (Nat.leb_spec 97 (N.to_nat (N_of_ascii c)));
    destruct (Nat.leb_spec (N.to_nat (N_of_ascii c)) 122);
    cbn [andb]; try reflexivity; lia.
Qed.

Lemma is_digit_byte (py : PyStr.Interpreter) (c : ascii) :
  PyStr.latin1_digits py ->
  PyStr.is_digit py (N_of_ascii c) = Formula.is_digit c.
Proof.
  intros Hl. unfold PyStr.is_digit, Formula.is_digit, nat_of_ascii.
  rewrite (Hl _ (N_ascii_bounded c)).
  destruct (N.leb_spec 48 (N_of_ascii c));
    destruct (N.leb_spec (N_of_ascii c) 57);
    destruct (Nat.leb_spec 48 (N.to_nat (N_of_ascii c)));
    destruct (Nat.leb_spec (N.to_nat (N_of_ascii c)) 57);
    cbn [andb]; try reflexivity; lia.
Qed.

Lemma span_byte (p : ascii -> bool) (q : N -> bool) (s : string) :
  (forall c, q (N_of_ascii c) = p c) ->
  PyStr.span q (PyStr.of_string s)
  = (PyStr.of_string (fst (Formula.span p s)),
     PyStr.of_string (snd (Formula.span p s))).
Proof.
  intros Hpq. induction s as [|c s IH]; [reflexivity|].
  change (PyStr.of_string (String c s))
    with (N_of_ascii c :: PyStr.of_string s).
  cbn [PyStr.span Formula.span]. rewrite Hpq.
  destruct (p c); [|reflexivity].
  rewrite IH. destruct (Formula.span p s) as [a b]. reflexivity.
Qed.

Lemma findall_fuel_byte (py : PyStr.Interpreter) :
  PyStr.latin1_digits py ->
  forall (n : nat) (s : string),
    PyStr.findall_fuel py n (PyStr.of_string s)
    = map (fun m => (PyStr.of_string (fst m), PyStr.of_string (snd m)))
        (Formula.findall_fuel n s).
Proof.
  intros Hl. induction n as [|n IH]; intros s; [reflexivity|].
  destruct s as [|c s]; [reflexivity|].
  change (PyStr.of_string (String c s))
    with (N_of_ascii c :: PyStr.of_string s).
  cbn [PyStr.findall_fuel Formula.findall_fuel]. rewrite is_upper_byte.
  destruct (Formula.is_upper c); [|apply IH].
  rewrite (@span_byte Formula.is_lower PyStr.is_lower s is_lower_byte).
  destruct (Formula.span Formula.is_lower s) as [lows r1]. cbn [fst snd].
  rewrite (@span_byte Formula.is_digit (PyStr.is_digit py) r1
             (fun c => is_digit_byte c Hl)).
  destruct (Formula.span Formula.is_digit r1) as [digits r2]. cbn [fst snd map].
  rewrite IH. reflexivity.
Qed.

Lemma span_prefix (p : ascii -> bool) (s : string) :
  Forall (fun c => p c = true) (list_ascii_of_string (fst (Formula.span p s)))
  /\ (String.length (fst (Formula.span p s)) <= String.length s)%nat.
Proof.
  induction s as [|c s IH]; [split; [constructor|simpl; lia]|].
  cbn [Formula.span]. destruct (p c) eqn:E; [|split; [constructor|simpl; lia]].
  destruct (Formula.span p s) as [a b]. cbn [fst] in *. destruct IH as [IH1 IH2].
  split; [constructor; assumption|simpl; lia].
Qed.

(** The digits of a match are digits, and no more than the text has
    characters. *)
Lemma findall_fuel_digits (n : nat) :
  forall s : string,
    Forall (fun m =>
              Forall (fun c => Formula.is_digit c = true)
                (list_ascii_of_string (snd m))
              /\ (String.length (snd m) <= String.length s)%nat)
      (Formula.findall_fuel n s).
Proof.
  induction n as [|n IH]; intros s; [constructor|].
  destruct s as [|c s]; [constructor|]. cbn [Formula.findall_fuel].
  destruct (Formula.is_upper c).
  - pose proof (span_length Formula.is_lower s) as H1.
    destruct (Formula.span Formula.is_lower s) as [lows r1]. cbn [snd] in H1.
    pose proof (span_length Formula.is_digit r1) as H2.
    pose proof (span_prefix Formula.is_digit r1) as H3.
    destruct (Formula.span Formula.is_digit r1) as [digits r2].
    cbn [fst snd] in *. constructor.
    + cbn [snd]. split; [apply H3|]. simpl. lia.
    + eapply Forall_impl; [|apply (IH r2)].
      intros m [Hd Hm]. split; [exact Hd|]. simpl. lia.
  - eapply Forall_impl; [|apply (IH s)].
    intros m [Hd Hm]. split; [exact Hd|]. simpl. lia.
Qed.

Lemma digits_value_byte (py : PyStr.Interpreter) (digits : string) :
  PyStr.latin1_digits py ->
  Forall (fun c => Formula.is_digit c = true) (list_ascii_of_string digits) ->
  PyStr.digits_value py (PyStr.of_string digits)
  = Formula.int_of_digits digits.
Proof.
  intros Hl Hd. unfold PyStr.digits_value, Formula.int_of_digits, PyStr.of_string.
  assert (G : forall (l : list ascii) (acc : Z),
            Forall (fun c => Formula.is_digit c = true) l ->
            fold_left
              (fun acc c =>
                 (10 * acc
                  + match PyStr.decimal py c with
                    | Some d => Z.of_N d
                    | None => 0
                    end)%Z)
              (map N_of_ascii l) acc
            = fold_left
                (fun acc c => (10 * acc + Z.of_nat (nat_of_ascii c - 48))%Z)
                l acc).
  { induction l as [|c l IH]; intros acc Hall; [reflexivity|].
    cbn [map fold_left]. inversion Hall as [|c' l' Hc Hall']; subst.
    rewrite <- (IH _ Hall'). f_equal.
    rewrite (Hl _ (N_ascii_bounded c)).
    unfold Formula.is_digit, nat_of_ascii in Hc.
    apply andb_true_iff in Hc. rewrite !Nat.leb_le in Hc.
    unfold nat_of_ascii.
    destruct (N.leb_spec 48 (N_of_ascii c)); [|lia].
    destruct (N.leb_spec (N_of_ascii c) 57); [|lia].
    cbn [andb]. lia. }
  now apply G.
Qed.

Lemma convert_byte (py : PyStr.Interpreter) (ms : list (string * string)) :
  PyStr.latin1_digits py ->
  Forall (fun m =>
            Forall (fun c => Formula.is_digit c = true)
              (list_ascii_of_string (snd m))
            /\ (String.length (snd m) <= 640
                \/ PyStr.int_max_str_digits py = 0)%nat) ms ->
  PyStr.convert py
    (map (fun m => (PyStr.of_string (fst m), PyStr.of_string (snd m))) ms) []
  = Ok (map (fun m => (PyStr.of_string (fst m), Formula.count_of (snd m))) ms).
Proof.
  intros Hl Hms. induction Hms as [|m ms [Hd Hlen] _ IH]; [reflexivity|].
  cbn [map PyStr.convert fst snd].
  assert (Hc : match PyStr.of_string (snd m) with
               | [] => Ok 1%Z
               | _ :: _ => PyStr.int py (PyStr.of_string (snd m))
               end = Ok (Formula.count_of (snd m))).
  { destruct (snd m) as [|c d] eqn:Em; [reflexivity|].
    change (PyStr.of_string (String c d))
      with (N_of_ascii c :: PyStr.of_string d).
    change (N_of_ascii c :: PyStr.of_string d)
      with (PyStr.of_string (String c d)).
    unfold PyStr.int. cbn zeta. rewrite of_string_length.
    assert (E : ((640 <? String.length (String c d))
                 && (0 <? PyStr.int_max_str_digits py)
                 && (PyStr.int_max_str_digits py <? String.length (String c d)))%nat
                = false).
    { destruct Hlen as [Hlen|Hlen].
      - destruct (Nat.ltb_spec 640 (String.length (String c d))); [lia|].
        reflexivity.
      - rewrite Hlen. cbn [Nat.ltb Nat.leb]. now rewrite andb_false_r. }
    destruct (PyStr.of_string (String c d)) eqn:Eo; [discriminate|].
    rewrite <- Eo. rewrite E. f_equal.
    rewrite digits_value_byte by assumption. reflexivity. }
  rewrite Hc. cbn [bind]. rewrite convert_acc, IH. reflexivity.
Qed.

(** The two parsers agree on one-byte texts of at most 640 characters, and
    on all one-byte texts where integer texts are not limited. *)
Lemma parse_on_bytes (py : PyStr.Interpreter) (s : string) :
  PyStr.latin1_digits py ->
  (String.length s <= 640 \/ PyStr.int_max_str_digits py = 0)%nat ->
  PyStr.parse_molecular_formula py (PyStr.of_string s)
  = (l <- Formula.parse_molecular_formula s ;;
     Ok (map (fun ac => (PyStr.of_string (fst ac), snd ac)) l)).
Proof.
  intros Hl Hs. unfold PyStr.parse_molecular_formula, PyStr.findall.
  cbn zeta. rewrite of_string_length, findall_fuel_byte by exact Hl.
  unfold Formula.parse_molecular_formula, Formula.findall. cbn [bind].
  rewrite convert_byte; [|exact Hl|].
  - f_equal. rewrite map_map. reflexivity.
  - eapply Forall_impl; [|apply findall_fuel_digits].
    intros m [Hd Hm]. split; [exact Hd|]. lia.
Qed.

(** The parser returns a result where a failure was expected: in
    [Xx2?h] the symbol [Xx] is no element and [?] and [h] belong to no
    token. *)
Lemma parse_accepts_malformed :
  PyStr.parse_molecular_formula SmallPy.interpreter (PyStr.of_string "Xx2?h")
  = Ok [(PyStr.of_string "Xx", 2%Z)].
Proof. reflexivity. Qed.

(** C9, as the code has it.  A token is an uppercase letter followed by
    lowercase letters and then decimal digits, the count being 1 when there
    is no digit: [C2H6] yields [(C,2), (H,6)], 8 atoms in total, and
    [C8H3F3Br] ends in [(Br,1)].  An unknown or malformed token is no error:
    a character at which no token starts is skipped, and a symbol is returned
    whether or not it names an element, as in [Xx2?h].  The only failure is
    the [ValueError] of [int] on a run of more than 640 digits that exceeds
    the interpreter's limit for integer texts. *)
Theorem parse_molecular_formula_tokens (py : PyStr.Interpreter) :
  PyStr.latin1_digits py ->
  let parse := PyStr.parse_molecular_formula py in
  let limit := PyStr.int_max_str_digits py in
  parse (PyStr.of_string "C2H6")
  = Ok [(PyStr.of_string "C", 2%Z); (PyStr.of_string "H", 6%Z)]
  /\ PyStr.total_atom_num
       [(PyStr.of_string "C", 2%Z); (PyStr.of_string "H", 6%Z)] = 8%Z
  /\ parse (PyStr.of_string "C8H3F3Br")
     = Ok [(PyStr.of_string "C", 8%Z); (PyStr.of_string "H", 3%Z);
           (PyStr.of_string "F", 3%Z); (PyStr.of_string "Br", 1%Z)]
  /\ parse (PyStr.of_string "Xx2?h") = Ok [(PyStr.of_string "Xx", 2%Z)]
  /\ parse [] = Ok []
  /\ (forall c rest, ~ (65 <= c <= 90)%N -> parse (c :: rest) = parse rest)
  /\ (forall c lows digits rest,
        (65 <= c <= 90)%N ->
        Forall (fun x => (97 <= x <= 122)%N) lows ->
        Forall (fun x => PyStr.decimal py x <> None) digits ->
        match rest with
        | [] => True
        | x :: _ =>
            PyStr.decimal py x = None
            /\ (digits = [] -> ~ (97 <= x <= 122)%N)
        end ->
        parse (c :: lows ++ digits ++ rest)
        = if ((640 <? List.length digits) && (0 <? limit)
              && (limit <? List.length digits))%nat
          then Raise ValueError
          else
            l <- parse rest ;;
            Ok ((c :: lows,
                 match digits with
                 | [] => 1%Z
                 | _ :: _ => PyStr.digits_value py digits
                 end) :: l))
  /\ PyStr.digits_value py [] = 0%Z
  /\ (forall digits c d,
        PyStr.decimal py c = Some d ->
        PyStr.digits_value py (digits ++ [c])
        = (10 * PyStr.digits_value py digits + Z.of_N d)%Z)
  /\ (forall formula e,
        parse formula = Raise e ->
        e = ValueError
        /\ (0 < limit)%nat
        /\ (limit + 1 < List.length formula)%nat
        /\ (641 < List.length formula)%nat).
Proof.
  intros Hl. cbn zeta.
  split; [now rewrite parse_on_bytes by (try exact Hl; left; simpl; lia)|].
  split; [reflexivity|].
  split; [now rewrite parse_on_bytes by (try exact Hl; left; simpl; lia)|].
  split; [now rewrite parse_on_bytes by (try exact Hl; left; simpl; lia)|].
  split; [reflexivity|].
  split; [|split; [|split; [|split]]].
  - intros c rest Hc. apply parse_skip.
    destruct (PyStr.is_upper c) eqn:E; [|reflexivity].
    apply is_upper_range in E. contradiction.
  - intros c lows digits rest Hc Hlows Hdigits Hrest.
    apply parse_token; try assumption.
    + now apply is_upper_range.
    + eapply Forall_impl; [|exact Hlows]. intros x Hx.
      now apply is_lower_range.
    + destruct rest as [|x rest]; [exact I|]. destruct Hrest as [Hx Hnl].
      split; [exact Hx|]. intros Hd.
      destruct (PyStr.is_lower x) eqn:E; [|reflexivity].
      apply is_lower_range in E. now elim (Hnl Hd).
  - reflexivity.
  - intros digits c d Hd. rewrite digits_value_snoc, Hd. reflexivity.
  - intros formula e. apply parse_raises.
Qed.

Lemma small_interpreter_latin1 : PyStr.latin1_digits SmallPy.interpreter.
Proof.
  intros c Hc. cbn [SmallPy.interpreter PyStr.decimal].
  destruct ((48 <=? c) && (c <=? 57))%N; [reflexivity|].
  destruct (N.leb_spec 1632 c); [lia|reflexivity].
Qed.

End PyStrFacts.

(** Runs on the interpreter of the examples: the ethane formula, a count
    written in Arabic-Indic digits, and a count of 4301 digits, which [int]
    refuses. *)
Lemma parse_molecular_formula_tokens_witness :
  PyStr.parse_molecular_formula SmallPy.interpreter (PyStr.of_string "C2H6")
  = Ok [(PyStr.of_string "C", 2%Z); (PyStr.of_string "H", 6%Z)]
  /\ PyStr.parse_molecular_formula SmallPy.interpreter [67; 1633; 1634]%N
     = Ok [([67]%N, 12%Z)]
  /\ PyStr.parse_molecular_formula SmallPy.interpreter
       (67%N :: repeat 49%N 4301)
     = Raise ValueError.
Proof.
  destruct (@parse_molecular_formula_tokens SmallPy.interpreter
              small_interpreter_latin1)
    as (H1 & _ & _ & _ & _ & _ & Htok & _).
  split; [exact H1|]. split.
  - pose proof (Htok 67%N [] [1633; 1634]%N []) as H. cbn [app] in H.
    rewrite H.
    + reflexivity.
    + lia.
    + constructor.
    + repeat constructor; discriminate.
    + exact I.
  - pose proof (Htok 67%N [] (repeat 49%N 4301) []) as H. cbn [app] in H.
    rewrite app_nil_r in H. rewrite H.
    + rewrite repeat_length. reflexivity.
    + lia.
    + constructor.
    + apply Forall_forall. intros x Hx. apply repeat_spec in Hx. subst x.
      discriminate.
    + exact I.
Defined.


(** ** Retrosynthesis tree analysis *)

Section TreeFacts.

Local Open Scope Q_scope.

(** The two [for] loops over [temp] and the loop collecting the children can
    only fail on a missing key. *)
Lemma for_each_raises {A S : Type} (body : S -> A -> result S) (l : list A)
  (s : S) (e : exn) :
  (forall s a e', body s a = Raise e' -> e' = KeyError) ->
  for_each body l s = Raise e -> e = KeyError.
Proof.
  intros Hbody. revert s. induction l as [|a l IH]; intros s; simpl.
  - discriminate.
  - destruct (body s a) as [s'|e'] eqn:E; simpl.
    + apply IH.
    + intros H. injection H as <-. exact (Hbody _ _ _ E).
Qed.

Lemma getitem_raises {A : Type} (v : option A) (e : exn) :
  getitem v = Raise e -> e = KeyError.
Proof. destruct v; simpl; [discriminate|]. intros H. now injection H as <-. Qed.

Lemma height_child (p q : option Q) (cs : list node) (c : node) :
  In c cs -> (height c < height (Node p q (Some cs)))%nat.
Proof.
  intros Hin. simpl. apply Nat.lt_succ_r.
  induction cs as [|c' cs IH]; [contradiction|].
  simpl. destruct Hin as [->|Hin]; [lia|]. specialize (IH Hin). lia.
Qed.

Lemma height_le_forest (l : list node) (c : node) :
  In c l -> (height c <= forest_height l)%nat.
Proof.
  induction l as [|c' l IH]; [contradiction|].
  simpl. intros [->|Hin]; [lia|]. specialize (IH Hin). lia.
Qed.

Lemma forest_height_bound (l : list node) (n : nat) :
  l <> [] -> (forall c, In c l -> (S (height c) <= n)%nat) ->
  (forest_height l < n)%nat.
Proof.
  induction l as [|c l IH]; [intros H; now elim H|intros _ Hall].
  simpl. destruct l as [|c' l].
  - simpl. specialize (Hall c (or_introl eq_refl)). lia.
  - assert (forest_height (c' :: l) < n)%nat.
    { apply IH; [discriminate|]. intros x Hx. apply Hall. now right. }
    specialize (Hall c (or_introl eq_refl)). lia.
Qed.

Lemma forest_height_cons (c : node) (l : list node) :
  forest_height (c :: l) = Nat.max (height c) (forest_height l).
Proof. reflexivity. Qed.

(** What the loop over [current] leaves in [(num_child, temp)]. *)
Lemma collect_spec (l : list node) (n n' : Z) (acc temp : list node) :
  for_each collect l (n, acc) = Ok (n', temp) ->
  exists added,
    temp = acc ++ added
    /\ n' = (n + Z.of_nat (List.length added))%Z
    /\ (forall c, In c added -> (S (height c) <= forest_height l)%nat).
Proof.
  revert n acc. induction l as [|item l IH]; intros n acc.
  - simpl. intros H. injection H as <- <-. exists []. rewrite app_nil_r. simpl.
    repeat split; [lia|contradiction].
  - intros H. destruct item as [p q [cs|]]; simpl in H; [|discriminate].
    apply IH in H. destruct H as (added & -> & -> & Hall).
    exists (cs ++ added). rewrite app_assoc, length_app, Nat2Z.inj_add.
    repeat split; [lia|].
    intros c Hc. rewrite forest_height_cons.
    apply in_app_or in Hc. destruct Hc as [Hc|Hc].
    + pose proof (@height_child p q cs c Hc) as Hh. lia.
    + specialize (Hall c Hc). lia.
Qed.

(** The loop does not run out of fuel when given more than the height of its
    frontier. *)
Lemma while_true_fuel_enough : forall (fuel : nat) (current : list node)
  (depth p_score : Q) (status : list (Q * Z)) (price : Q),
  (forest_height current < fuel)%nat ->
  while_true fuel current depth p_score status price <> Raise OutOfFuel.
Proof.
  induction fuel as [|fuel IH]; intros current depth p_score status price Hf;
    [lia|].
  simpl.
  destruct (for_each collect current (0%Z, [])) as [[num_child temp]|e] eqn:Ec;
    simpl.
  - destruct (num_child =? 0)%Z eqn:Ez; [discriminate|].
    apply collect_spec in Ec. destruct Ec as (added & Ht & Hn & Hall).
    simpl in Ht. subst temp.
    assert (Hne : added <> []).
    { intros ->. simpl in Hn. subst num_child. discriminate. }
    pose proof (forest_height_bound Hne Hall) as Hlt.
    destruct (fractional _).
    + destruct (for_each times_plausibility added p_score) as [p|e] eqn:Ep; simpl.
      * apply IH. lia.
      * apply for_each_raises in Ep.
        -- subst e. discriminate.
        -- intros s a e'. unfold times_plausibility.
           destruct (getitem (plausibility a)) eqn:G; simpl; [discriminate|].
           intros H. injection H as <-. exact (getitem_raises _ G).
    + destruct (for_each plus_ppg added price) as [p|e] eqn:Ep; simpl.
      * apply IH. lia.
      * apply for_each_raises in Ep.
        -- subst e. discriminate.
        -- intros s a e'. unfold plus_ppg.
           destruct (getitem (ppg a)) eqn:G; simpl; [discriminate|].
           intros H. injection H as <-. exact (getitem_raises _ G).
  - apply for_each_raises in Ec.
    + subst e. discriminate.
    + intros [s1 s2] a e'. unfold collect.
      destruct (getitem (children a)) eqn:G; simpl; [discriminate|].
      intros H. injection H as <-. exact (getitem_raises _ G).
Qed.

Lemma traverse_fuel_enough (num_path : Z) (current : list node) :
  traverse num_path current <> Raise OutOfFuel.
Proof.
  unfold traverse.
  pose proof (@while_true_fuel_enough (S (forest_height current)) current
                0 1 [(0, 1%Z)] 0 (Nat.lt_succ_diag_r _)) as H.
  destruct (while_true _ _ _ _ _ _) as [[[[d p] st] pr]|e]; simpl.
  - destruct (int (d - (1 # 2)) =? 0)%Z; discriminate.
  - intros E. apply H. injection E as ->. reflexivity.
Qed.

(** The fuel of the model never runs out: the analysis returns or raises a
    Python error. *)
Lemma tree_analysis_fuel_enough (current : search_result) :
  tree_analysis current <> Raise OutOfFuel.
Proof.
  unfold tree_analysis.
  destruct (error current); [discriminate|].
  destruct (price current); [discriminate|].
  destruct (trees current) as [[|first rest]|]; cbn [getitem bind].
  - apply traverse_fuel_enough.
  - destruct (ppg first) as [p|]; cbn [getitem bind]; [|discriminate].
    destruct (negb (Qeq_bool p 0)); [discriminate|apply traverse_fuel_enough].
  - discriminate.
Qed.

(** A run of the traversal: a root that is not purchasable, one reaction of
    plausibility 9/10 and two purchasable reactants of prices 1 and 2. *)
Example tree_analysis_one_step :
  let leaf p := Node (Some p) None (Some []) in
  let reaction := Node None (Some (9 # 10)) (Some [leaf 1; leaf 2]) in
  let root := Node (Some 0) None (Some [reaction]) in
  tree_analysis {| error := None; price := None; trees := Some [root] |}
  = Ok (1%Z, [(0, 1%Z); (1 # 2, 1%Z); (1, 2%Z)], 1%Z, 9 # 10, 1%Z, 3).
Proof. vm_compute. reflexivity. Qed.

(** C1. A result that carries an error marker is analysed to the sentinel
    (-1, {}, 11, -1, -1, -1), whatever else it carries. *)
Theorem error_marker_gives_sentinel (current : search_result) :
  error current <> None ->
  tree_analysis current = Ok ((-1)%Z, [], 11%Z, -1, (-1)%Z, -1).
Proof.
  intros H. unfold tree_analysis.
  destruct (error current); [reflexivity|now elim H].
Qed.

Lemma error_marker_gives_sentinel_witness :
  error {| error := Some "celery"%string; price := Some 5; trees := None |} <> None
  /\ tree_analysis {| error := Some "celery"%string; price := Some 5; trees := None |}
     = Ok ((-1)%Z, [], 11%Z, -1, (-1)%Z, -1).
Proof.
  assert (H : error {| error := Some "celery"%string; price := Some 5;
                       trees := None |} <> None) by discriminate.
  split; [exact H|]. exact (error_marker_gives_sentinel _ H).
Defined.

(** The empty list of trees is not analysed to (0, {}, 11, -1, 0, -1). *)
Lemma empty_trees_not_as_specified :
  tree_analysis {| error := None; price := None; trees := Some [] |}
  <> Ok (0%Z, [], 11%Z, -1, 0%Z, -1).
Proof. vm_compute. discriminate. Qed.

(** C2, as the code has it. The input with an empty list of trees is analysed to
    (0, {0: 1}, 11, 0, 0, -1): no path, the status holding the initial entry
    for depth 0, 11 steps, plausibility 1 * 0 = 0, not synthesizable,
    price -1. *)
Theorem empty_trees_analysis :
  tree_analysis {| error := None; price := None; trees := Some [] |}
  = Ok (0%Z, [(0, 1%Z)], 11%Z, 0, 0%Z, -1).
Proof. vm_compute. reflexivity. Qed.

(** A result that carries a price and an error marker is analysed to the
    sentinel, not to the purchasable tuple. *)
Lemma price_with_error_is_sentinel :
  price {| error := Some "celery"%string; price := Some 5; trees := None |} = Some 5
  /\ tree_analysis {| error := Some "celery"%string; price := Some 5; trees := None |}
     = Ok ((-1)%Z, [], 11%Z, -1, (-1)%Z, -1)
  /\ tree_analysis {| error := Some "celery"%string; price := Some 5; trees := None |}
     <> Ok (0%Z, [], 0%Z, 1, 1%Z, 5).
Proof.
  split; [reflexivity|]. split; [reflexivity|]. vm_compute. discriminate.
Qed.

(** C7, as the code has it. On a result without error marker: if it carries a price
    the analysis is (0, {}, 0, 1, 1, price); if it carries no price and the
    root of its first tree has a non-zero ppg, the analysis is
    (0, {}, 0, 1, 1, rootPrice). *)
Theorem purchasable_short_circuit (current : search_result) :
  error current = None ->
  (forall p, price current = Some p ->
     tree_analysis current = Ok (0%Z, [], 0%Z, 1, 1%Z, p))
  /\ (forall first rest p,
        price current = None ->
        trees current = Some (first :: rest) ->
        ppg first = Some p -> ~ p == 0 ->
        tree_analysis current = Ok (0%Z, [], 0%Z, 1, 1%Z, p)).
Proof.
  intros He. unfold tree_analysis. rewrite He. split.
  - intros p ->. reflexivity.
  - intros first rest p -> -> Hp Hnz. cbn [getitem bind]. rewrite Hp.
    cbn [getitem bind].
    destruct (Qeq_bool p 0) eqn:E; [|reflexivity].
    apply Qeq_bool_iff in E. contradiction.
Qed.

Lemma purchasable_short_circuit_witness :
  tree_analysis {| error := None; price := Some 5; trees := None |}
  = Ok (0%Z, [], 0%Z, 1, 1%Z, 5)
  /\ tree_analysis
       {| error := None; price := None;
          trees := Some [Node (Some (7 # 2)) None (Some [])] |}
     = Ok (0%Z, [], 0%Z, 1, 1%Z, 7 # 2).
Proof.
  split.
  - exact (proj1 (@purchasable_short_circuit
                    {| error := None; price := Some 5; trees := None |} eq_refl)
             5 eq_refl).
  - refine (proj2 (@purchasable_short_circuit
                     {| error := None; price := None;
                        trees := Some [Node (Some (7 # 2)) None (Some [])] |}
                     eq_refl)
              _ [] (7 # 2) eq_refl eq_refl eq_refl _).
    intros H. discriminate H.
Defined.

End TreeFacts.

(** ** Runs on concrete inputs *)

Section Runs.

Local Open Scope R_scope.

(** [SA] on the empty text: it parses, to the molecule without atoms, and the
    fragment normalisation divides by zero. *)
Example SA_empty_text :
  MolFromSmiles Small.toolkit EmptyString = Some Small.NoAtom
  /\ SA Small.toolkit (Some EmptyString) = Raise ZeroDivisionError.
Proof.
  split; [reflexivity|].
  change (SA Small.toolkit (Some EmptyString))
    with (calculateScore Small.toolkit Small.NoAtom).
  now apply calculateScore_no_fragment.
Qed.

(** [ClippedScoreModifier(upper_x=1, lower_x=0, high_score=1, low_score=0)]
    maps 0.5 to 0.5, 2 to 1 and -1 to 0. *)
Example clipped_unit_interval (m : ScoreModifier) :
  ClippedScoreModifier_init 1 0 1 0 = Ok m ->
  (exists y, call m (PyFloat 0.5) = Ok y /\ val y = 0.5)
  /\ (exists y, call m (PyFloat 2) = Ok y /\ val y = 1)
  /\ (exists y, call m (PyFloat (-1)) = Ok y /\ val y = 0).
Proof.
  intros H.
  assert (Hlt : 0 < 1) by lra. assert (Hne : 1 <> 0) by lra.
  destruct (proj2 (proj2 (clipped_init_cases 1 0 1 0)) Hlt Hne) as (sl & Hsl & Hs).
  rewrite Hs in H. injection H as <-.
  assert (E : sl = 1) by (rewrite Hsl; field).
  repeat split; eexists; (split; [reflexivity|]); simpl; rewrite E;
    unfold Rmin, Rmax;
    repeat match goal with
           | |- context [Rle_dec ?a ?b] => destruct (Rle_dec a b)
           | H : context [Rle_dec ?a ?b] |- _ => destruct (Rle_dec a b)
           end; lra.
Qed.

End Runs.

(** * Further properties of the score modifiers *)

Section ModifierAlgebra.

Local Open Scope R_scope.

Lemma call_chained_cons (m : ScoreModifier) (ms : list ScoreModifier) (x : scalar) :
  call (ChainedModifier (m :: ms)) x
  = (s <- call m x ;; call (ChainedModifier ms) s).
Proof. reflexivity. Qed.

(** X1. A chain applies its stages from left to right: the empty chain
    returns its argument, a chain over two lists appended is the chain over
    the first followed by the chain over the second (so a failure of an early
    stage is the failure of the chain), and a leading [LinearModifier(1)]
    changes nothing. *)
Theorem chained_composes (ms1 ms2 : list ScoreModifier) (x : scalar) :
  call (ChainedModifier []) x = Ok x
  /\ call (ChainedModifier (ms1 ++ ms2)) x
     = (y <- call (ChainedModifier ms1) x ;; call (ChainedModifier ms2) y)
  /\ call (ChainedModifier (LinearModifier 1 :: ms2)) x
     = call (ChainedModifier ms2) x.
Proof.
  split; [reflexivity|]. split.
  - revert x. induction ms1 as [|m ms IH]; intros x.
    + reflexivity.
    + change ((m :: ms) ++ ms2) with (m :: (ms ++ ms2)).
      rewrite !call_chained_cons.
      destruct (call m x) as [s|e]; cbn [bind]; [apply IH|reflexivity].
  - rewrite call_chained_cons. cbn [call bind].
    replace (mul (PyFloat 1) x) with x; [reflexivity|].
    destruct x as [r|r]; simpl; now rewrite Rmult_1_l.
Qed.

Lemma clipped_call (u l hi lo s i : R) (x : scalar) :
  call (ClippedScoreModifier u l hi lo s i) x
  = Ok (NpFloat (Rmin (Rmax (s * val x + i) lo) hi)).
Proof.
  cbn [call]. unfold np_clip. rewrite val_add, val_mul. reflexivity.
Qed.

Lemma clip_bounds (y lo hi : R) : lo < hi -> lo <= Rmin (Rmax y lo) hi <= hi.
Proof.
  intros H. split.
  - apply Rmin_glb; [apply Rmax_r|lra].
  - apply Rmin_r.
Qed.

Lemma clip_monotone (y1 y2 lo hi : R) :
  y1 <= y2 -> Rmin (Rmax y1 lo) hi <= Rmin (Rmax y2 lo) hi.
Proof.
  intros H. apply Rle_min_compat_r. apply Rle_max_compat_r. exact H.
Qed.

(** What a successful construction of the clipped modifier has established. *)
Lemma clipped_init_inv (upper_x lower_x high_score low_score : R)
  (m : ScoreModifier) :
  ClippedScoreModifier_init upper_x lower_x high_score low_score = Ok m ->
  low_score < high_score /\ upper_x <> lower_x
  /\ m = ClippedScoreModifier upper_x lower_x high_score low_score
           ((high_score - low_score) / (upper_x - lower_x))
           (high_score - (high_score - low_score) / (upper_x - lower_x) * upper_x).
Proof.
  intros H.
  destruct (clipped_init_cases upper_x lower_x high_score low_score)
    as (Hbad & Hzero & Hok).
  destruct (Rlt_dec low_score high_score) as [Hlt|Hge];
    [|rewrite (Hbad Hge) in H; discriminate].
  destruct (Req_EM_T upper_x lower_x) as [E|Hne];
    [rewrite (Hzero Hlt E) in H; discriminate|].
  destruct (Hok Hlt Hne) as (s & -> & Hs). rewrite Hs in H.
  injection H as <-. repeat split; assumption.
Qed.

(** X2. A clipped modifier that was constructed never fails when applied, and
    its value lies between [low_score] and [high_score]. *)
Theorem clipped_stays_in_range (upper_x lower_x high_score low_score : R)
  (m : ScoreModifier) (x : scalar) :
  ClippedScoreModifier_init upper_x lower_x high_score low_score = Ok m ->
  exists y, call m x = Ok y /\ low_score <= val y <= high_score.
Proof.
  intros H. apply clipped_init_inv in H. destruct H as (Hlt & Hne & ->).
  rewrite clipped_call. eexists. split; [reflexivity|].
  simpl. now apply clip_bounds.
Qed.

Lemma clipped_stays_in_range_witness :
  exists m,
    ClippedScoreModifier_init 0.8 0 1 0 = Ok m
    /\ (exists y, call m (PyFloat 3) = Ok y /\ 0 <= val y <= 1).
Proof.
  destruct (@clipped_default_init 0.8) as (m & Hm); [lra|].
  exists m. split; [exact Hm|].
  exact (@clipped_stays_in_range _ _ _ _ m (PyFloat 3) Hm).
Defined.

(** X3. The direction of a clipped modifier follows the order of its two
    abscissas: with [lower_x < upper_x] it is non-decreasing, with
    [upper_x < lower_x] it is non-increasing. *)
Theorem clipped_monotone (upper_x lower_x high_score low_score : R)
  (m : ScoreModifier) (x1 x2 : scalar) :
  ClippedScoreModifier_init upper_x lower_x high_score low_score = Ok m ->
  val x1 <= val x2 ->
  exists y1 y2,
    call m x1 = Ok y1 /\ call m x2 = Ok y2
    /\ (lower_x < upper_x -> val y1 <= val y2)
    /\ (upper_x < lower_x -> val y2 <= val y1).
Proof.
  intros H Hx. apply clipped_init_inv in H. destruct H as (Hlt & Hne & ->).
  rewrite !clipped_call. do 2 eexists. split; [reflexivity|].
  split; [reflexivity|]. simpl.
  set (s := (high_score - low_score) / (upper_x - lower_x)).
  split.
  - intros Ho.
    assert (Hs : 0 < s).
    { unfold s. apply Rdiv_lt_0_compat; lra. }
    apply clip_monotone. nra.
  - intros Ho.
    assert (Hs : s < 0).
    { unfold s.
      replace ((high_score - low_score) / (upper_x - lower_x))
        with (- ((high_score - low_score) / (lower_x - upper_x)))
        by (field; lra).
      assert (0 < (high_score - low_score) / (lower_x - upper_x))
        by (apply Rdiv_lt_0_compat; lra).
      lra. }
    apply clip_monotone. nra.
Qed.

Lemma clipped_monotone_witness :
  exists m y1 y2,
    ClippedScoreModifier_init 0.8 0 1 0 = Ok m
    /\ call m (PyFloat 0.3) = Ok y1 /\ call m (PyFloat 2) = Ok y2
    /\ val y1 <= val y2.
Proof.
  destruct (@clipped_default_init 0.8) as (m & Hm); [lra|].
  assert (Hx : val (PyFloat 0.3) <= val (PyFloat 2)) by (simpl; lra).
  destruct (@clipped_monotone _ _ _ _ m (PyFloat 0.3) (PyFloat 2) Hm Hx)
    as (y1 & y2 & H1 & H2 & Hup & _).
  exists m, y1, y2. repeat split; try assumption.
  apply Hup. lra.
Defined.

End ModifierAlgebra.

Section ModifierShapes.

Local Open Scope R_scope.



Lemma div_le_of_mul (a b c : R) : 0 < b -> a <= c * b -> a / b <= c.
Proof.
  intros Hb H. replace c with (c * b / b) by (field; lra).
  unfold Rdiv. apply Rmult_le_compat_r; [|exact H].
  left. now apply Rinv_0_lt_compat.
Qed.





Lemma neg_half_square (a : R) : - 0.5 * a ^ 2 <= 0.
Proof. pose proof (pow2_ge_0 a). lra. Qed.

Lemma min_max_gaussian_call (mu sigma : R) (minimize : bool) (x : scalar) :
  call (MinMaxGaussianModifier mu sigma minimize) x
  = Ok (NpFloat
          (exp (- 0.5
                * (((if minimize then Rmax (val x) mu else Rmin (val x) mu) - mu)
                   / sigma) ^ 2))).
Proof.
  cbn [call]. destruct minimize; reflexivity.
Qed.

(** X5. A half Gaussian never fails when applied, whatever its [sigma].  With
    a non-zero [sigma] its value lies between 0 and 1; under [minimize] it is
    1 for arguments up to [mu] and agrees with the full Gaussian modifier
    above [mu]; without [minimize] it is 1 from [mu] on and agrees with the
    full Gaussian modifier below. *)
Theorem min_max_gaussian_shape (mu sigma : R) (minimize : bool) (x : scalar) :
  exists y,
    call (MinMaxGaussianModifier mu sigma minimize) x = Ok y
    /\ (sigma <> 0 ->
        0 <= val y <= 1
        /\ ((if minimize then val x <= mu else mu <= val x) -> val y = 1)
        /\ ((if minimize then mu <= val x else val x <= mu) ->
            exists z,
              call (GaussianModifier mu sigma) x = Ok z /\ val y = val z)).
Proof.
  rewrite min_max_gaussian_call. eexists. split; [reflexivity|].
  intros Hs. simpl val. split; [|split].
  - split; [left; apply exp_pos|].
    apply Rle_trans with (exp 0); [|rewrite exp_0; lra]. apply exp_le.
    apply neg_half_square.
  - intros Hx. rewrite <- exp_0. f_equal.
    destruct minimize.
    + rewrite Rmax_right by exact Hx. rewrite Rminus_diag. field. exact Hs.
    + rewrite Rmin_right by exact Hx. rewrite Rminus_diag. field. exact Hs.
  - intros Hx. cbn [call].
    destruct (Gaussian_call_val mu x Hs) as (z & Hz & Hv).
    exists z. split; [exact Hz|]. rewrite Hv. destruct minimize.
    + rewrite Rmax_left by exact Hx. reflexivity.
    + rewrite Rmin_left by exact Hx. reflexivity.
Qed.

Lemma min_max_gaussian_shape_witness :
  exists y,
    call (MinMaxGaussianModifier 0.85 0.1 true) (PyFloat 0.5) = Ok y
    /\ val y = 1.
Proof.
  assert (Hs : 0.1 <> 0) by lra.
  destruct (@min_max_gaussian_shape 0.85 0.1 true (PyFloat 0.5))
    as (y & Hy & Hshape).
  destruct (Hshape Hs) as (_ & Hflat & _).
  exists y. split; [exact Hy|]. apply Hflat. simpl. lra.
Defined.

(** X6. With a positive threshold the thresholded linear modifier never
    fails; it is [x / threshold] up to the threshold and 1 from the threshold
    on, hence never above 1. *)
Theorem thresholded_linear_shape (threshold : R) (x : scalar) :
  0 < threshold ->
  exists y,
    call (ThresholdedLinearModifier threshold) x = Ok y
    /\ val y <= 1
    /\ (val x <= threshold -> val y = val x / threshold)
    /\ (threshold <= val x -> val y = 1).
Proof.
  intros Ht. cbn [call].
  exists (NpFloat (Rmin (val x) threshold / threshold)).
  split; [destruct x; reflexivity|]. simpl val. split; [|split].
  - apply div_le_of_mul; [exact Ht|]. rewrite Rmult_1_l. apply Rmin_r.
  - intros Hx. now rewrite Rmin_left.
  - intros Hx. rewrite Rmin_right by exact Hx. field. lra.
Qed.

Lemma thresholded_linear_shape_witness :
  exists y1 y2,
    call (ThresholdedLinearModifier 10) (PyFloat 5) = Ok y1 /\ val y1 = 0.5
    /\ call (ThresholdedLinearModifier 10) (PyFloat 20) = Ok y2 /\ val y2 = 1.
Proof.
  assert (Ht : 0 < 10) by lra.
  destruct (@thresholded_linear_shape 10 (PyFloat 5) Ht) as (y1 & H1 & _ & Hlow & _).
  destruct (@thresholded_linear_shape 10 (PyFloat 20) Ht) as (y2 & H2 & _ & _ & Hup).
  exists y1, y2. repeat split; try assumption.
  - rewrite Hlow by (simpl; lra). simpl. lra.
  - apply Hup. simpl. lra.
Defined.

(** X7. A Gaussian modifier with a non-zero [sigma] never fails; its value
    lies between 0 and 1 and is the same at equal distances on either side of
    [mu]. *)
Theorem gaussian_range_and_symmetry (mu sigma : R) (x1 x2 : scalar) :
  sigma <> 0 ->
  exists y1 y2,
    call (GaussianModifier mu sigma) x1 = Ok y1
    /\ call (GaussianModifier mu sigma) x2 = Ok y2
    /\ 0 <= val y1 <= 1
    /\ (val x1 - mu = mu - val x2 -> val y1 = val y2).
Proof.
  intros Hs. cbn [call].
  destruct (Gaussian_call_val mu x1 Hs) as (y1 & Hy1 & Hv1).
  destruct (Gaussian_call_val mu x2 Hs) as (y2 & Hy2 & Hv2).
  exists y1, y2. split; [exact Hy1|]. split; [exact Hy2|]. split.
  - rewrite Hv1. split; [left; apply exp_pos|].
    apply Rle_trans with (exp 0); [|rewrite exp_0; lra]. apply exp_le.
    apply neg_half_square.
  - intros Hd. rewrite Hv1, Hv2, Hd. f_equal. f_equal.
    replace ((mu - val x2) / sigma) with (- ((val x2 - mu) / sigma))
      by (field; exact Hs).
    simpl. ring.
Qed.

Lemma gaussian_range_and_symmetry_witness :
  exists y1 y2,
    call (GaussianModifier 2 0.5) (PyFloat 3) = Ok y1
    /\ call (GaussianModifier 2 0.5) (PyFloat 1) = Ok y2
    /\ val y1 = val y2.
Proof.
  assert (Hs : 0.5 <> 0) by lra.
  destruct (@gaussian_range_and_symmetry 2 0.5 (PyFloat 3) (PyFloat 1) Hs)
    as (y1 & y2 & H1 & H2 & _ & Hsym).
  exists y1, y2. split; [exact H1|]. split; [exact H2|].
  apply Hsym. simpl. lra.
Defined.

(** X8. The squared modifier (with a positive coefficient) and the absolute
    modifier never fail and never exceed 1; both are 1 at the target value. *)
Theorem squared_and_absolute_peak (target_value coefficient : R) (x : scalar) :
  0 < coefficient ->
  exists y z,
    call (SquaredModifier target_value coefficient) x = Ok y
    /\ call (AbsoluteScoreModifier target_value) x = Ok z
    /\ val y <= 1 /\ val z <= 1
    /\ (val x = target_value -> val y = 1 /\ val z = 1).
Proof.
  intros Hc. cbn [call]. do 2 eexists.
  split; [reflexivity|]. split; [reflexivity|].
  assert (Hy : forall a b, val (sub (PyFloat a) (mul (PyFloat b)
                 (np_square (sub (PyFloat target_value) x))))
               = a - b * ((target_value - val x) * (target_value - val x))).
  { intros a b. destruct x; reflexivity. }
  assert (Hz : forall a, val (sub (PyFloat a)
                 (np_abs (sub (PyFloat target_value) x)))
               = a - Rabs (target_value - val x)).
  { intros a. destruct x; reflexivity. }
  rewrite Hy, Hz. clear Hy Hz.
  set (d := target_value - val x).
  assert (Hd : 0 <= d * d) by nra.
  pose proof (Rabs_pos d) as Ha.
  split; [nra|]. split; [nra|].
  intros H. unfold d. rewrite H, Rminus_diag, Rabs_R0. split; ring.
Qed.

Lemma squared_and_absolute_peak_witness :
  exists y z,
    call (SquaredModifier 3 1) (PyFloat 3) = Ok y
    /\ call (AbsoluteScoreModifier 3) (PyFloat 3) = Ok z
    /\ val y = 1 /\ val z = 1.
Proof.
  assert (Hc : 0 < 1) by lra.
  destruct (@squared_and_absolute_peak 3 1 (PyFloat 3) Hc)
    as (y & z & Hy & Hz & _ & _ & Hp).
  destruct Hp as (Hpy & Hpz); [reflexivity|].
  exists y, z. repeat split; assumption.
Defined.

End ModifierShapes.

(** * Further properties of the tree analysis *)

Section TreeShapes.

Local Open Scope Q_scope.

Lemma collect_raises (acc : Z * list node) (a : node) (e : exn) :
  collect acc a = Raise e -> e = KeyError.
Proof.
  destruct acc as [n t]. unfold collect.
  destruct (getitem (children a)) eqn:G; simpl; [discriminate|].
  intros H. injection H as <-. exact (getitem_raises _ G).
Qed.

Lemma times_plausibility_raises (s : Q) (a : node) (e : exn) :
  times_plausibility s a = Raise e -> e = KeyError.
Proof.
  unfold times_plausibility.
  destruct (getitem (plausibility a)) eqn:G; simpl; [discriminate|].
  intros H. injection H as <-. exact (getitem_raises _ G).
Qed.

Lemma plus_ppg_raises (s : Q) (a : node) (e : exn) :
  plus_ppg s a = Raise e -> e = KeyError.
Proof.
  unfold plus_ppg.
  destruct (getitem (ppg a)) eqn:G; simpl; [discriminate|].
  intros H. injection H as <-. exact (getitem_raises _ G).
Qed.

Lemma while_true_raises : forall (fuel : nat) (current : list node)
  (depth p_score : Q) (status : list (Q * Z)) (price : Q) (e : exn),
  while_true fuel current depth p_score status price = Raise e ->
  e = KeyError \/ e = OutOfFuel.
Proof.
  induction fuel as [|fuel IH]; intros current depth p_score status price e.
  - simpl. intros H. injection H as <-. now right.
  - simpl.
    destruct (for_each collect current (0%Z, [])) as [[num_child temp]|e'] eqn:Ec;
      cbn [bind].
    + destruct (num_child =? 0)%Z; [discriminate|].
      destruct (fractional _).
      * destruct (for_each times_plausibility temp p_score) as [p|e'] eqn:Ep;
          cbn [bind].
        -- apply IH.
        -- intros H. injection H as <-. left.
           exact (for_each_raises _ _ _ (@times_plausibility_raises) Ep).
      * destruct (for_each plus_ppg temp price) as [p|e'] eqn:Ep; cbn [bind].
        -- apply IH.
        -- intros H. injection H as <-. left.
           exact (for_each_raises _ _ _ (@plus_ppg_raises) Ep).
    + intros H. injection H as <-. left.
      exact (for_each_raises _ _ _ (@collect_raises) Ec).
Qed.

Lemma traverse_raises (num_path : Z) (current : list node) (e : exn) :
  traverse num_path current = Raise e -> e = KeyError.
Proof.
  intros H. pose proof (@traverse_fuel_enough num_path current) as Hf.
  assert (He : e = KeyError \/ e = OutOfFuel).
  { unfold traverse in H.
    destruct (while_true _ _ _ _ _ _) as [[[[d p] st] pr]|e'] eqn:Ew;
      cbn [bind] in H.
    - destruct (int (d - (1 # 2)) =? 0)%Z; discriminate.
    - injection H as <-. exact (while_true_raises _ _ _ _ _ _ Ew). }
  destruct He as [He|He]; [exact He|]. subst e. contradiction.
Qed.

Lemma tree_analysis_raises (current : search_result) (e : exn) :
  tree_analysis current = Raise e -> e = KeyError.
Proof.
  unfold tree_analysis.
  destruct (error current); [discriminate|].
  destruct (price current); [discriminate|].
  destruct (trees current) as [[|first rest]|]; cbn [getitem bind].
  - apply traverse_raises.
  - destruct (ppg first) as [p|]; cbn [getitem bind].
    + destruct (negb (Qeq_bool p 0)); [discriminate|apply traverse_raises].
    + intros H. now injection H as <-.
  - intros H. now injection H as <-.
Qed.

(** X9. The analysis always comes to an end, and a missing key is the only
    way it fails: whenever [tree_analysis] raises, it raises [KeyError].  It
    does so in particular when the result has none of the keys [error],
    [price], [trees], and when the root of the first tree has no [ppg]. *)
Theorem tree_analysis_fails_on_missing_key_only :
  (forall current e, tree_analysis current = Raise e -> e = KeyError)
  /\ tree_analysis {| error := None; price := None; trees := None |}
     = Raise KeyError
  /\ (forall pl cs rest,
        tree_analysis {| error := None; price := None;
                         trees := Some (Node None pl cs :: rest) |}
        = Raise KeyError).
Proof.
  split; [exact tree_analysis_raises|split; reflexivity].
Qed.

Lemma tree_analysis_fails_on_missing_key_only_witness :
  exists e,
    tree_analysis
      {| error := None; price := None;
         trees := Some [Node (Some 0) None (Some [Node None None None])] |}
    = Raise e
    /\ e = KeyError.
Proof.
  assert (H : exists e, tree_analysis
    {| error := None; price := None;
       trees := Some [Node (Some 0) None (Some [Node None None None])] |}
    = Raise e) by (eexists; vm_compute; reflexivity).
  destruct H as (e & H). exists e. split; [exact H|].
  exact (proj1 tree_analysis_fails_on_missing_key_only _ _ H).
Defined.

Lemma quarter_step (depth : Q) (k : Z) :
  depth == (k - 1) # 2 -> Qred (depth + (1 # 2)) == k # 2.
Proof.
  intros H. rewrite Qred_correct, H. unfold Qeq, Qplus. simpl. ring.
Qed.

(** The loop keeps [depth] at half the number of recorded levels. *)
Lemma while_true_levels : forall (fuel : nat) (current : list node)
  (depth p_score : Q) (status : list (Q * Z)) (price : Q)
  (d' p' : Q) (st' : list (Q * Z)) (pr' : Q),
  while_true fuel current depth p_score status price = Ok (d', p', st', pr') ->
  depth == (Z.of_nat (List.length status) - 1) # 2 ->
  d' == Z.of_nat (List.length st') # 2
  /\ (exists more, st' = status ++ more)
  /\ (st' = status -> p' = p_score /\ pr' = price).
Proof.
  induction fuel as [|fuel IH];
    intros current depth p_score status price d' p' st' pr'; [discriminate|].
  simpl.
  destruct (for_each collect current (0%Z, [])) as [[num_child temp]|e'];
    cbn [bind]; [|discriminate].
  destruct (num_child =? 0)%Z.
  - intros H Hd. injection H as <- <- <- <-. split; [|split].
    + now apply quarter_step.
    + exists []. now rewrite app_nil_r.
    + intros _. split; reflexivity.
  - intros H Hd.
    assert (Hnext :
      exists p1 pr1,
        while_true fuel temp (Qred (depth + (1 # 2))) p1
          (status ++ [(Qred (depth + (1 # 2)), num_child)]) pr1
        = Ok (d', p', st', pr')).
    { destruct (fractional _).
      - destruct (for_each times_plausibility temp p_score) as [p|e'];
          cbn [bind] in H; [|discriminate]. eauto.
      - destruct (for_each plus_ppg temp price) as [p|e'];
          cbn [bind] in H; [|discriminate]. eauto. }
    destruct Hnext as (p1 & pr1 & Hw). apply IH in Hw.
    + destruct Hw as (Hd' & (more & Hm) & _). split; [exact Hd'|]. split.
      * exists ((Qred (depth + (1 # 2)), num_child) :: more).
        rewrite Hm, <- app_assoc. reflexivity.
      * intros E. rewrite E in Hm. rewrite <- app_assoc in Hm.
        apply (f_equal (@List.length _)) in Hm.
        rewrite !length_app in Hm. simpl in Hm. lia.
    + rewrite length_app. simpl List.length.
      rewrite (quarter_step _ Hd). unfold Qeq. simpl. lia.
Qed.

Lemma int_nonneg (x : Q) : 0 <= x -> int x = Qfloor x.
Proof.
  intros H. unfold int. destruct x as [n d]. simpl.
  apply Z.quot_div_nonneg; [|lia].
  unfold Qle in H. simpl in H. lia.
Qed.

Lemma int_half_levels (d : Q) (n : nat) :
  d == Z.of_nat (S n) # 2 -> int (d - (1 # 2)) = (Z.of_nat n / 2)%Z.
Proof.
  intros H.
  assert (E : d - (1 # 2) == Z.of_nat n # 2).
  { rewrite H, Nat2Z.inj_succ. unfold Qeq, Qminus, Qplus, Qopp.
    cbn [Qnum Qden]. lia. }
  rewrite int_nonneg.
  - rewrite E. reflexivity.
  - rewrite E. unfold Qle. simpl. lia.
Qed.

Lemma traverse_shape (num_path : Z) (current : list node)
  (np : Z) (st : list (Q * Z)) (d : Z) (p : Q) (s : Z) (pr : Q) :
  traverse num_path current = Ok (np, st, d, p, s, pr) ->
  np = num_path
  /\ exists more,
       st = (0, 1%Z) :: more
       /\ s = (if (List.length more =? 0)%nat then 0 else 1)%Z
       /\ d = (if (List.length more <? 2)%nat then 11
               else Z.of_nat (List.length more) / 2)%Z
       /\ ((List.length more < 2)%nat -> pr = -1)
       /\ (more = [] -> p = 0).
Proof.
  unfold traverse.
  destruct (while_true _ _ _ _ _ _) as [[[[d' p'] st'] pr']|e] eqn:Ew;
    cbn [bind]; [|discriminate].
  apply while_true_levels in Ew; [|reflexivity].
  destruct Ew as (Hd & (more & ->) & Hsame).
  change ([(0, 1%Z)] ++ more) with ((0, 1%Z) :: more) in *.
  simpl List.length in *.
  rewrite (@int_half_levels _ _ Hd).
  assert (Hz : ((Z.of_nat (List.length more) / 2 =? 0)%Z
                = (List.length more <? 2)%nat)).
  { destruct (Nat.ltb_spec (List.length more) 2) as [Hlt|Hge].
    - apply Z.eqb_eq. apply Z.div_small. lia.
    - apply Z.eqb_neq. intros E.
      assert (2 <= Z.of_nat (List.length more))%Z by lia.
      pose proof (Z.div_le_mono 2 (Z.of_nat (List.length more)) 2) as Hm.
      change (2 / 2)%Z with 1%Z in Hm. lia. }
  rewrite Hz.
  assert (Hs : (1 <? S (List.length more))%nat
               = negb (List.length more =? 0)%nat).
  { destruct more; reflexivity. }
  rewrite Hs.
  destruct (List.length more <? 2)%nat eqn:Hlt; intros H;
    injection H as <- <- <- <- <- <-; (split; [reflexivity|]);
    exists more; rewrite Hlt; (split; [reflexivity|]);
    (split; [destruct (List.length more =? 0)%nat; reflexivity|]);
    (split; [reflexivity|]); split.
  - reflexivity.
  - intros ->. destruct Hsame as [-> _]; reflexivity.
  - apply Nat.ltb_ge in Hlt. lia.
  - intros ->. discriminate Hlt.
Qed.

(** X11. The shapes of a returned analysis.  Either the status is empty and
    the tuple is the sentinel (-1, {}, 11, -1, -1, -1) or a purchasable tuple
    (0, {}, 0, 1, 1, price); or the status starts with the entry 0: 1 and,
    for the number of levels recorded after it: the compound is synthesizable
    iff there is at least one level; the number of steps is half the number
    of levels, rounded down, but 11 when there are fewer than two levels, in
    which case the price is -1; and the plausibility is 0 when there is no
    level.  A single level below the root therefore gives a synthesizable
    compound with 11 steps and price -1. *)
Theorem tree_analysis_shapes (current : search_result)
  (np : Z) (st : list (Q * Z)) (d : Z) (p : Q) (s : Z) (pr : Q) :
  tree_analysis current = Ok (np, st, d, p, s, pr) ->
  (st = []
   /\ ((np = (-1)%Z /\ d = 11%Z /\ p = -1 /\ s = (-1)%Z /\ pr = -1)
       \/ (np = 0%Z /\ d = 0%Z /\ p = 1 /\ s = 1%Z)))
  \/ (exists more,
        st = (0, 1%Z) :: more
        /\ (exists ts, trees current = Some ts /\ np = Z.of_nat (List.length ts))
        /\ s = (if (List.length more =? 0)%nat then 0 else 1)%Z
        /\ d = (if (List.length more <? 2)%nat then 11
                else Z.of_nat (List.length more) / 2)%Z
        /\ ((List.length more < 2)%nat -> pr = -1)
        /\ (more = [] -> p = 0)).
Proof.
  unfold tree_analysis.
  destruct (error current).
  { intros H. injection H as <- <- <- <- <- <-. left. split; [reflexivity|].
    left. repeat split. }
  destruct (price current).
  { intros H. injection H as <- <- <- <- <- <-. left. split; [reflexivity|].
    right. repeat split. }
  destruct (trees current) as [ts|]; cbn [getitem bind]; [|discriminate].
  assert (Htr : forall cur,
            traverse (Z.of_nat (List.length ts)) cur = Ok (np, st, d, p, s, pr) ->
            exists more,
              st = (0, 1%Z) :: more
              /\ (exists ts', Some ts = Some ts'
                              /\ np = Z.of_nat (List.length ts'))
              /\ s = (if (List.length more =? 0)%nat then 0 else 1)%Z
              /\ d = (if (List.length more <? 2)%nat then 11
                      else Z.of_nat (List.length more) / 2)%Z
              /\ ((List.length more < 2)%nat -> pr = -1)
              /\ (more = [] -> p = 0)).
  { intros cur H. apply traverse_shape in H.
    destruct H as (-> & more & -> & Hs & Hd & Hpr & Hp).
    exists more. split; [reflexivity|]. split; [exists ts; split; reflexivity|].
    repeat split; assumption. }
  destruct ts as [|first rest].
  - intros H. right. exact (Htr _ H).
  - destruct (ppg first) as [q|]; cbn [getitem bind]; [|discriminate].
    destruct (negb (Qeq_bool q 0)).
    + intros H. injection H as <- <- <- <- <- <-. left. split; [reflexivity|].
      right. repeat split.
    + intros H. right. exact (Htr _ H).
Qed.

Lemma tree_analysis_shapes_witness :
  tree_analysis
    {| error := None; price := None;
       trees := Some [Node (Some 0) None
                        (Some [Node None (Some (9 # 10)) (Some [])])] |}
  = Ok (1%Z, [(0, 1%Z); (1 # 2, 1%Z)], 11%Z, 9 # 10, 1%Z, -1)
  /\ exists more,
       [(0, 1%Z); (1 # 2, 1%Z)] = (0, 1%Z) :: more
       /\ 1%Z = (if (List.length more =? 0)%nat then 0 else 1)%Z
       /\ 11%Z = (if (List.length more <? 2)%nat then 11
                  else Z.of_nat (List.length more) / 2)%Z.
Proof.
  assert (H : tree_analysis
    {| error := None; price := None;
       trees := Some [Node (Some 0) None
                        (Some [Node None (Some (9 # 10)) (Some [])])] |}
    = Ok (1%Z, [(0, 1%Z); (1 # 2, 1%Z)], 11%Z, 9 # 10, 1%Z, -1))
    by (vm_compute; reflexivity).
  split; [exact H|].
  destruct (tree_analysis_shapes _ H) as [[E _]|(more & E & _ & Hs & Hd & _)].
  - discriminate E.
  - exists more. repeat split; assumption.
Defined.

End TreeShapes.

Section FirstTree.

Local Open Scope Q_scope.

(** X10. Of the trees of a result only the first is analysed: two results
    with the same first tree fail alike or return tuples that differ at most
    in [num_path], which is 0 when the root is purchasable and the number of
    trees otherwise. *)
Theorem only_first_tree_is_analysed (first : node) (rest rest' : list node) :
  match tree_analysis {| error := None; price := None;
                         trees := Some (first :: rest) |},
        tree_analysis {| error := None; price := None;
                         trees := Some (first :: rest') |} with
  | Ok (n, st, d, p, s, pr), Ok (n', st', d', p', s', pr') =>
      st = st' /\ d = d' /\ p = p' /\ s = s' /\ pr = pr'
      /\ ((n = 0%Z /\ n' = 0%Z)
          \/ (n = Z.of_nat (S (List.length rest))
              /\ n' = Z.of_nat (S (List.length rest'))))
  | Raise e, Raise e' => e = e'
  | _, _ => False
  end.
Proof.
  unfold tree_analysis. cbn [error price trees getitem bind].
  destruct (ppg first) as [q|]; cbn [getitem bind]; [|reflexivity].
  destruct (negb (Qeq_bool q 0)).
  - repeat split. now left.
  - unfold traverse.
    destruct (while_true _ _ _ _ _ _) as [[[[d p] st] pr]|e]; cbn [bind];
      [|reflexivity].
    destruct (int (d - (1 # 2)) =? 0)%Z; repeat split; now right.
Qed.

End FirstTree.

(** * Further properties of the formula parser *)

Section FormulaShapes.

Import FormulaShape.
Local Open Scope string_scope.













End FormulaShapes.

(** * Fragment counts and the fragment table *)

Section FragmentFacts.

Import FragmentTable.
Local Open Scope Z_scope.

Lemma sum_cells_update (f : Z -> Z) (j v : Z) (n : nat) :
  sum_cells (fun i => if i =? j then f i + v else f i) n
  = sum_cells f n + (if (0 <=? j) && (j <? Z.of_nat n) then v else 0).
Proof.
  induction n as [|n IH]; cbn [sum_cells].
  - destruct (Z.leb_spec 0 j); destruct (Z.ltb_spec j (Z.of_nat 0));
      cbn [andb]; lia.
  - rewrite IH.
    destruct (Z.eqb_spec (Z.of_nat n) j) as [E|N];
      destruct (Z.leb_spec 0 j); destruct (Z.ltb_spec j (Z.of_nat n));
      destruct (Z.ltb_spec j (Z.of_nat (S n))); cbn [andb]; lia.
Qed.

Lemma int32_range (z : Z) : -2147483648 <= int32 z <= 2147483647.
Proof.
  unfold int32.
  pose proof (Z.mod_pos_bound (z + 2147483648) 4294967296 eq_refl). lia.
Qed.

Lemma int32_small (z : Z) :
  -2147483648 <= z <= 2147483647 -> int32 z = z.
Proof.
  intros H. unfold int32. rewrite Z.mod_small by lia. lia.
Qed.

Lemma cell_le_sum (f : Z -> Z) (n : nat) (j : Z) :
  (forall k, 0 <= f k) -> 0 <= j < Z.of_nat n ->
  0 <= sum_cells f n /\ f j <= sum_cells f n.
Proof.
  intros Hf. induction n as [|n IH]; intros Hj; [lia|].
  cbn [sum_cells]. pose proof (Hf (Z.of_nat n)) as Hn.
  assert (H0 : 0 <= sum_cells f n).
  { clear IH Hj. induction n as [|m IHm]; cbn [sum_cells]; [lia|].
    pose proof (Hf (Z.of_nat m)). lia. }
  destruct (Z.eq_dec j (Z.of_nat n)) as [->|N]; [lia|].
  destruct IH as [_ IH]; [lia|]. lia.
Qed.

(** Folding into 32-bit cells: the cells stay 32-bit numbers, nothing is
    written outside the row, and as long as the occurrences fit a cell the
    row holds them all *)
Lemma fold_cells (size : Z) (n : nat) (l : list (Z * positive)) (f : Z -> Z) :
  size = Z.of_nat n -> 0 < size ->
  let g :=
    fold_left
      (fun (nfp : Z -> Z) (kv : Z * positive) =>
         let '(idx, v) := kv in
         let nidx := idx mod size in
         fun i => if i =? nidx then int32 (nfp i + Zpos v) else nfp i)
      l f in
  (forall i, (forall k, -2147483648 <= f k <= 2147483647) ->
             -2147483648 <= g i <= 2147483647)
  /\ (forall i, i < 0 \/ size <= i -> g i = f i)
  /\ ((forall k, 0 <= f k) ->
      sum_cells f n + occurrences l <= 2147483647 ->
      sum_cells g n = sum_cells f n + occurrences l
      /\ (forall i, 0 <= g i)).
Proof.
  intros Hs Hpos. revert f. induction l as [|[idx v] l IH]; intros f; cbn zeta.
  - simpl. split; [|split].
    + intros i H. apply H.
    + reflexivity.
    + intros Hf _. split; [lia|exact Hf].
  - cbn [fold_left occurrences fold_right snd].
    specialize (IH (fun i => if i =? idx mod size
                             then int32 (f i + Z.pos v) else f i)).
    cbn zeta in IH. destruct IH as (Hrange & Hout & Hsum).
    pose proof (Z.mod_pos_bound idx size Hpos) as Hb.
    split; [|split].
    + intros i Hf. apply Hrange. intros k.
      destruct (k =? idx mod size); [apply int32_range|apply Hf].
    + intros i Hi. rewrite Hout by exact Hi.
      destruct (Z.eqb_spec i (idx mod size)); [lia|reflexivity].
    + intros Hf Hfit. fold (occurrences l) in Hfit.
      assert (Hocc : 0 <= occurrences l).
      { clear. induction l as [|kv l IHl]; cbn [occurrences fold_right]; [lia|].
        fold (occurrences l). lia. }
      destruct (@cell_le_sum f n (idx mod size) Hf) as [H0 Hcell]; [lia|].
      pose proof (Hf (idx mod size)) as Hnn.
      assert (Hstep : forall i,
                (if i =? idx mod size then int32 (f i + Z.pos v) else f i)
                = (if i =? idx mod size then f i + Z.pos v else f i)).
      { intros i. destruct (Z.eqb_spec i (idx mod size)) as [->|_];
          [|reflexivity]. apply int32_small. lia. }
      assert (Hsc : sum_cells
                      (fun i => if i =? idx mod size
                                then int32 (f i + Z.pos v) else f i) n
                    = sum_cells f n + Z.pos v).
      { transitivity (sum_cells
                        (fun i => if i =? idx mod size
                                  then f i + Z.pos v else f i) n).
        - clear -Hstep. induction n as [|n IHn]; cbn [sum_cells];
            [reflexivity|]. rewrite IHn, Hstep. reflexivity.
        - rewrite sum_cells_update.
          destruct (Z.leb_spec 0 (idx mod size)); [|lia].
          destruct (Z.ltb_spec (idx mod size) (Z.of_nat n)); [|lia].
          reflexivity. }
      destruct Hsum as [Hsum Hnonneg].
      * intros k. rewrite Hstep.
        destruct (k =? idx mod size); [specialize (Hf k); lia|apply Hf].
      * rewrite Hsc. lia.
      * split; [|exact Hnonneg]. rewrite Hsum, Hsc. fold (occurrences l). lia.
Qed.

(** X14. Folding a fingerprint into the 2048 cells of a 32-bit row: every
    cell holds a signed 32-bit number and nothing is written outside the row;
    when the fragment occurrences of the fingerprint number at most
    2^31 - 1, no occurrence is lost: the cells 0 to 2047 add up to the number
    of occurrences and no cell is negative. *)
Theorem fingerprints_from_mol_keeps_counts (tk : Toolkit) (mol : Mol tk) :
  let elements := GetNonzeroElements tk (GetMorganFingerprint tk mol 3 true) in
  let nfp := fingerprints_from_mol tk mol in
  (forall i, -2147483648 <= nfp i <= 2147483647)
  /\ (forall i, i < 0 \/ 2048 <= i -> nfp i = 0)
  /\ (occurrences elements <= 2147483647 ->
      sum_cells nfp 2048 = occurrences elements
      /\ (forall i, 0 <= nfp i)).
Proof.
  cbn zeta. unfold fingerprints_from_mol.
  pose proof (@fold_cells 2048 2048
                (GetNonzeroElements tk (GetMorganFingerprint tk mol 3 true))
                (fun _ => 0) eq_refl eq_refl) as H.
  cbn zeta in H. destruct H as (Hrange & Hout & Hsum).
  assert (Z0 : forall n, sum_cells (fun _ => 0) n = 0).
  { induction n as [|n IHn]; cbn [sum_cells]; lia. }
  split; [|split].
  - intros i. apply Hrange. intros k. lia.
  - intros i Hi. now rewrite Hout.
  - intros Hfit. destruct Hsum as [Hsum Hnonneg].
    + intros k. lia.
    + rewrite Z0. lia.
    + split; [|exact Hnonneg]. rewrite Hsum, Z0. lia.
Qed.

Lemma fingerprints_from_mol_keeps_counts_witness :
  sum_cells (fingerprints_from_mol Small.toolkit Small.OneAtom) 2048 = 1.
Proof.
  destruct (@fingerprints_from_mol_keeps_counts Small.toolkit Small.OneAtom)
    as (_ & _ & H).
  destruct H as [H _]; [cbn; lia|]. exact H.
Defined.

Lemma store_row_lookup (d : Z -> option R) (row : R * list Z) (id : Z) :
  store_row d row id
  = if existsb (Z.eqb id) (snd row) then Some (fst row) else d id.
Proof.
  unfold store_row. destruct row as [score ids]. cbn [fst snd].
  revert d. induction ids as [|k ids IH]; intros d; cbn [fold_left existsb].
  - reflexivity.
  - rewrite IH. destruct (existsb (Z.eqb id) ids).
    + now rewrite orb_true_r.
    + rewrite orb_false_r. reflexivity.
Qed.

Lemma fold_store_rows (rows : list (R * list Z)) (d : Z -> option R) (id : Z) :
  fold_left store_row rows d id
  = match last_listing rows id with
    | Some s => Some s
    | None => d id
    end.
Proof.
  revert d. induction rows as [|row rows IH]; intros d;
    cbn [fold_left last_listing]; [reflexivity|].
  rewrite IH. destruct (last_listing rows id); [reflexivity|].
  rewrite store_row_lookup.
  destruct (existsb (Z.eqb id) (snd row)); reflexivity.
Qed.

(** X15. The fragment table built from the rows gives, for a fragment
    identifier, the score of the last row that lists it, and nothing for an
    identifier that no row lists; such a fragment then enters the fragment
    sums with the default contribution -4 per occurrence. *)
Theorem readFragmentScores_lookup (rows : list (R * list Z)) (id : Z) :
  readFragmentScores rows id = last_listing rows id
  /\ ((forall row, In row rows -> ~ In id (snd row)) ->
      readFragmentScores rows id = None
      /\ forall score1 nf v,
           fragment_step (readFragmentScores rows) (score1, nf) (id, v)
           = ((score1 + (- 4) * IZR (Zpos v))%R, nf + Zpos v)).
Proof.
  assert (E : readFragmentScores rows id = last_listing rows id).
  { unfold readFragmentScores. rewrite fold_store_rows.
    destruct (last_listing rows id); reflexivity. }
  split; [exact E|]. intros Hno.
  assert (N : last_listing rows id = None).
  { clear E. induction rows as [|row rows IH]; cbn [last_listing];
      [reflexivity|].
    rewrite IH by (intros r Hr; apply Hno; now right).
    destruct (existsb (Z.eqb id) (snd row)) eqn:Ex; [|reflexivity].
    apply existsb_exists in Ex. destruct Ex as (k & Hk & Hid).
    apply Z.eqb_eq in Hid. subst k. elim (Hno row (or_introl eq_refl) Hk). }
  split; [now rewrite E|].
  intros score1 nf v. unfold fragment_step. rewrite E, N. reflexivity.
Qed.

Lemma readFragmentScores_lookup_witness :
  readFragmentScores [(1.5%R, [7; 8]); (2.5%R, [8])] 9 = None
  /\ readFragmentScores [(1.5%R, [7; 8]); (2.5%R, [8])] 8 = Some 2.5%R.
Proof.
  split.
  - assert (H : forall row, In row [(1.5%R, [7; 8]); (2.5%R, [8])] ->
                  ~ In 9 (snd row)).
    { intros row Hin. destruct Hin as [<-|[<-|[]]]; simpl; lia. }
    exact (proj1 (proj2 (readFragmentScores_lookup
                           [(1.5%R, [7; 8]); (2.5%R, [8])] 9) H)).
  - rewrite (proj1 (readFragmentScores_lookup [(1.5%R, [7; 8]); (2.5%R, [8])] 8)).
    reflexivity.
Defined.

End FragmentFacts.

(** * Further oracles *)

Section MoreOracleFacts.

Import MoreOracles.
Local Open Scope R_scope.

Variable tk : Toolkit.
Variable ext : Extension tk.

Lemma excess_over_six (cycle_list : list (list nat)) :
  (let cycle_length :=
     match cycle_list with
     | [] => O
     | _ => list_max (map (@List.length nat) cycle_list)
     end in
   if (cycle_length <=? 6)%nat then O else (cycle_length - 6)%nat)
  = (list_max (map (@List.length nat) cycle_list) - 6)%nat.
Proof.
  cbn zeta. destruct cycle_list as [|c l]; [reflexivity|].
  destruct (Nat.leb_spec (list_max (map (@List.length nat) (c :: l))) 6); lia.
Qed.

(** X16. What [penalized_logp] does on a text: the fallback -100 when it does
    not parse (or is [None]); the division by zero of the SA estimator, not a
    value, when it parses to a molecule without fragments; and otherwise the
    sum of the three normalised terms, in which the SA score lies between 1
    and 10 and the cycle term counts the atoms of the largest cycle beyond
    six, cycles of at most six atoms costing nothing. *)
Theorem penalized_logp_cases (s : string) :
  penalized_logp ext None = Ok (- 100.0)
  /\ match MolFromSmiles tk s with
     | None => penalized_logp ext (Some s) = Ok (- 100.0)
     | Some m =>
         match GetNonzeroElements tk (GetMorganFingerprint tk m 2 false) with
         | [] => penalized_logp ext (Some s) = Raise ZeroDivisionError
         | _ :: _ =>
             exists sa,
               calculateScore tk m = Ok sa /\ 1 <= sa <= 10
               /\ penalized_logp ext (Some s)
                  = Ok ((MolLogP tk m - 2.4570953396190123) / 1.434324401111988
                        + (- sa - - 3.0525811293166134) / 0.8335207024513095
                        + (- INR (list_max (map (@List.length nat)
                                              (cycle_basis ext m)) - 6)
                           - - 0.0485696876403053) / 0.2860212110245455)
         end
     end.
Proof.
  split; [reflexivity|]. unfold penalized_logp.
  destruct (MolFromSmiles tk s) as [m|]; [|reflexivity].
  destruct (GetNonzeroElements tk (GetMorganFingerprint tk m 2 false)) eqn:E.
  - rewrite (calculateScore_no_fragment _ _ E). reflexivity.
  - destruct (@calculateScore_fragments tk m) as (raw & v & _ & Hc).
    { rewrite E. discriminate. }
    exists (clamp v). split; [exact Hc|]. split; [apply clamp_range|].
    rewrite Hc. cbn [bind]. cbn zeta.
    pose proof (excess_over_six (cycle_basis ext m)) as Hx. cbn zeta in Hx.
    rewrite Hx. reflexivity.
Qed.

(** X17. The two kinase oracles have no fallback: on a text that does not
    parse, where [drd2] returns 0.0, and on a molecule that fails the
    sanitization, [gsk3b] and [jnk3.__call__] fail with the toolkit's error;
    on a molecule that passes they return the probability of their
    classifier. *)
Theorem kinase_oracles_have_no_fallback (s : string) :
  match MolFromSmiles tk s with
  | None =>
      gsk3b ext s = Raise ArgumentError /\ jnk3_call ext s = Raise ArgumentError
      /\ drd2 tk s = Ok 0
  | Some m =>
      if SanitizeMol tk m then
        gsk3b ext s
        = Ok (gsk3_predict_proba ext (GetMorganFingerprintAsBitVect tk m))
        /\ jnk3_call ext s
           = Ok (jnk3_predict_proba ext (GetMorganFingerprintAsBitVect tk m))
      else
        gsk3b ext s = Raise ArgumentError
        /\ jnk3_call ext s = Raise ArgumentError
  end.
Proof.
  unfold gsk3b, jnk3_call, smiles_to_rdkit_mol, drd2.
  destruct (MolFromSmiles tk s) as [m|]; [|repeat split; reflexivity].
  destruct (SanitizeMol tk m); split; reflexivity.
Qed.

(** X18. A similarity objective is the rediscovery objective of the same
    target and fingerprint family followed by its modifier: both are
    constructed or fail alike (with [KeyError] on an unknown family), and the
    value of the first is the modifier applied to the value of the second,
    or that value itself when there is no modifier. *)
Theorem similarity_meta_is_modified_rediscovery
  (target fp : string) (modifier : option ScoreModifier) (s : string) :
  match rediscovery_meta_init tk target fp,
        similarity_meta_init tk target fp modifier with
  | Ok r, Ok sm =>
      similarity_meta_call sm s
      = (v <- rediscovery_meta_call r s ;;
         match modifier with
         | None => Ok (PyFloat v)
         | Some m => call m (PyFloat v)
         end)
  | Raise e, Raise e' =>
      e = e' /\ (fp2fpfunc tk fp = None -> e = KeyError)
  | _, _ => False
  end.
Proof.
  unfold rediscovery_meta_init, similarity_meta_init.
  destruct (fp2fpfunc tk fp) as [f|]; [|split; reflexivity].
  destruct (f target) as [t|e]; cbn [bind]; [|split; [reflexivity|discriminate]].
  unfold similarity_meta_call, rediscovery_meta_call.
  cbn [similarity_func target_fp modifier_func Oracle.similarity_func
         Oracle.target_fp].
  destruct (f s) as [test_fp|e]; cbn [bind]; reflexivity.
Qed.

End MoreOracleFacts.

(** * The isomer objective *)

Section IsomerFacts.

Import MoreOracles.
Local Open Scope R_scope.

Variable tk : Toolkit.
Variable ext : Extension tk.

Lemma gaussian_value (mu sigma : R) (x : scalar) :
  sigma <> 0 ->
  exists y,
    call (GaussianModifier mu sigma) x = Ok y
    /\ 0 <= val y <= 1 /\ (val x = mu -> val y = 1).
Proof.
  intros Hs. cbn [call].
  destruct (Gaussian_call_val mu x Hs) as (y & Hy & Hv).
  exists y. split; [exact Hy|]. rewrite Hv. split; [split|].
  - left. apply exp_pos.
  - apply Rle_trans with (exp 0); [|rewrite exp_0; lra].
    apply exp_le. apply neg_half_square.
  - intros ->. rewrite <- exp_0. f_equal. rewrite Rminus_diag. field. exact Hs.
Qed.

(** The count an atom counter returns on a molecule *)
Lemma AtomCounter_call_some (element : string) (mol : Mol tk) :
  exists n, AtomCounter_call ext element (Some mol) = Return n /\ (0 <= n)%Z.
Proof.
  unfold AtomCounter_call. destruct (element =? "H")%string; cbn;
    eexists; (split; [reflexivity|lia]).
Qed.

Lemma sum_bounds (l : list R) :
  Forall (fun x => 0 <= x <= 1) l ->
  0 <= fold_right Rplus 0 l <= INR (List.length l).
Proof.
  induction 1 as [|x l Hx _ IH].
  - simpl. lra.
  - cbn [fold_right List.length]. rewrite S_INR. lra.
Qed.

Lemma np_mean_bounds (l : list R) :
  l <> [] -> Forall (fun x => 0 <= x <= 1) l -> 0 <= np_mean l <= 1.
Proof.
  intros Hne Hl. destruct (sum_bounds Hl) as [Hlow Hup].
  assert (Hn : 0 < INR (List.length l)).
  { apply lt_0_INR. destruct l; [now elim Hne|simpl; lia]. }
  unfold np_mean. split.
  - apply Rmult_le_pos; [exact Hlow|]. left. now apply Rinv_0_lt_compat.
  - apply div_le_of_mul; [exact Hn|]. lra.
Qed.

Lemma np_mean_ones (l : list R) :
  l <> [] -> Forall (fun x => x = 1) l -> np_mean l = 1.
Proof.
  intros Hne Hl.
  assert (Hs : fold_right Rplus 0 l = INR (List.length l)).
  { induction Hl as [|x l Hx _ IH]; [reflexivity|].
    cbn [fold_right List.length]. rewrite S_INR, Hx.
    destruct l as [|y l]; [simpl; lra|]. rewrite IH by discriminate. lra. }
  unfold np_mean. rewrite Hs. field.
  apply not_0_INR. destruct l; [now elim Hne|discriminate].
Qed.

(** The loop over the counters, on a molecule, for Gaussian modifiers of
    width 1 *)
Lemma counter_scores_on_molecule (mol : Mol tk) (l : list (string * Z))
  (acc : list scalar) :
  exists ys,
    counter_scores ext (Some mol)
      (map (fun ac : string * Z => (fst ac, GaussianModifier (IZR (snd ac)) 1.0)) l)
      acc
    = Return (acc ++ ys)
    /\ List.length ys = List.length l
    /\ Forall (fun y => 0 <= val y <= 1) ys
    /\ ((forall a c, In (a, c) l ->
           AtomCounter_call ext a (Some mol) = Return c) ->
        Forall (fun y => val y = 1) ys).
Proof.
  revert acc. induction l as [|[a c] l IH]; intros acc.
  - exists []. cbn. rewrite app_nil_r. repeat split; constructor.
  - cbn [map fst snd counter_scores].
    destruct (AtomCounter_call_some a mol) as (n & Hn & _). rewrite Hn.
    cbn [and_then].
    assert (H1 : (1.0 : R) <> 0) by lra.
    destruct (@gaussian_value (IZR c) 1.0 (PyFloat (IZR n)) H1)
      as (y & Hy & Hr & Hp).
    rewrite Hy. cbn [of_result and_then].
    destruct (IH (acc ++ [y])) as (ys & Hys & Hlen & Hall & Hone).
    exists (y :: ys). rewrite Hys, <- app_assoc. split; [reflexivity|].
    split; [simpl; now rewrite Hlen|]. split; [constructor; assumption|].
    intros Hcount. constructor.
    + apply Hp. simpl.
      specialize (Hcount a c (or_introl eq_refl)). rewrite Hn in Hcount.
      now injection Hcount as ->.
    + apply Hone. intros a' c' Hin. apply Hcount. now right.
Qed.

(** X19. An isomer objective with the arithmetic mean, on a candidate that
    parses: it returns a value between 0 and 1 (the list of scores is never
    empty, as the score of the total atom count is always in it), and the
    value is 1 when every element of the target formula is counted as often
    as the formula says and the candidate text, read as a formula, has the
    total atom count of the target.  *)
Theorem isomer_arithmetic_range (target s : string) (self : Isomer_scoring)
  (mol : Mol tk) :
  Isomer_scoring_init tk target "arithmetic"%string = Ok self ->
  smiles_to_rdkit_mol tk s = Some mol ->
  exists v,
    Isomer_scoring_call ext self s = Return v
    /\ 0 <= v <= 1
    /\ (forall l lt,
          parse_molecular_formula target = Ok l ->
          parse_molecular_formula s = Ok lt ->
          (forall a c, In (a, c) l ->
             AtomCounter_call ext a (Some mol) = Return c) ->
          total_atom_num lt = total_atom_num l ->
          v = 1).
Proof.
  intros Hinit Hmol. unfold Isomer_scoring_init in Hinit.
  cbn [String.eqb Ascii.eqb Bool.eqb orb andb] in Hinit.
  unfold parse_molecular_formula in Hinit. cbn [bind] in Hinit.
  injection Hinit as <-.
  unfold Isomer_scoring_call. rewrite Hmol.
  cbn [AtomCounter_Modifier_lst total_atom_modifier mean_func].
  set (l := map (fun m : string * string => (fst m, count_of (snd m)))
              (findall target)).
  destruct (counter_scores_on_molecule mol l []) as (ys & Hys & _ & Hall & Hone).
  rewrite Hys. cbn [and_then app].
  unfold parse_molecular_formula. cbn [of_result and_then].
  set (lt := map (fun m : string * string => (fst m, count_of (snd m)))
               (findall s)).
  assert (H2 : (2.0 : R) <> 0) by lra.
  destruct (@gaussian_value (IZR (total_atom_num l)) 2.0
              (PyFloat (IZR (total_atom_num lt))) H2) as (y & Hy & Hr & Hp).
  rewrite Hy. cbn [of_result and_then].
  eexists. split; [reflexivity|].
  assert (Hne : map val (ys ++ [y]) <> []).
  { destruct ys; discriminate. }
  split.
  - apply np_mean_bounds; [exact Hne|].
    rewrite map_app. apply Forall_app. split.
    + apply Forall_map. exact Hall.
    + constructor; [exact Hr|constructor].
  - intros l' lt' El Elt Hcount Htot.
    injection El as <-. injection Elt as <-.
    apply np_mean_ones; [exact Hne|].
    rewrite map_app. apply Forall_app. split.
    + apply Forall_map. now apply Hone.
    + constructor; [|constructor]. apply Hp. simpl. now rewrite Htot.
Qed.


End IsomerFacts.

Section IsomerRuns.

Import MoreOracles.
Local Open Scope R_scope.

Lemma isomer_arithmetic_range_witness :
  exists self v,
    Isomer_scoring_init Small.toolkit "C"%string "arithmetic"%string = Ok self
    /\ Isomer_scoring_call SmallMore.extension self "C"%string = Return v
    /\ v = 1.
Proof.
  assert (Hi : exists self,
            Isomer_scoring_init Small.toolkit "C"%string "arithmetic"%string = Ok self).
  { eexists. reflexivity. }
  destruct Hi as (self & Hi). exists self.
  destruct (@isomer_arithmetic_range Small.toolkit SmallMore.extension
              "C"%string "C"%string self Small.OneAtom Hi eq_refl) as (v & Hv & _ & Hone).
  exists v. split; [exact Hi|]. split; [exact Hv|].
  apply (Hone [("C"%string, 1%Z)] [("C"%string, 1%Z)]);
    try reflexivity.
  intros a c [E|[]]. injection E as <- <-. reflexivity.
Defined.


End IsomerRuns.

(** * The ASKCOS oracle *)

Section AskcosFacts.

Import Askcos.
Local Open Scope Q_scope.

Lemma trials_count (srv : server) (n i : nat) (resp : search_result) :
  (i <= snd (trials srv n i resp) <= i + n)%nat.
Proof.
  revert i resp. induction n as [|n IH]; intros i resp; cbn [trials].
  - simpl. lia.
  - destruct (error (treebuilder_api srv i)).
    + specialize (IH (S i) (treebuilder_api srv i)). lia.
    + simpl. lia.
Qed.

(** The loop stops at the first answer without error. *)
Lemma trials_first_success (srv : server) (n i0 i : nat) (resp : search_result) :
  (i0 <= i < i0 + n)%nat ->
  (forall j, (i0 <= j < i)%nat -> error (treebuilder_api srv j) <> None) ->
  error (treebuilder_api srv i) = None ->
  trials srv n i0 resp = (treebuilder_api srv i, S i).
Proof.
  revert i0 resp. induction n as [|n IH]; intros i0 resp Hi Hbad Hok; [lia|].
  cbn [trials]. destruct (Nat.eq_dec i0 i) as [->|Hne].
  - now rewrite Hok.
  - destruct (error (treebuilder_api srv i0)) eqn:E.
    + apply IH; [lia| |exact Hok]. intros j Hj. apply Hbad. lia.
    + elim (Hbad i0); [lia|exact E].
Qed.

(** When every answer carries an error the loop returns the last one. *)
Lemma trials_all_fail (srv : server) (n i0 : nat) (resp : search_result) :
  (forall j, (i0 <= j < i0 + S n)%nat -> error (treebuilder_api srv j) <> None) ->
  trials srv (S n) i0 resp = (treebuilder_api srv (i0 + n), (i0 + S n)%nat).
Proof.
  revert i0 resp. induction n as [|n IH]; intros i0 resp Hbad.
  - cbn [trials]. destruct (error (treebuilder_api srv i0)) eqn:E.
    + rewrite Nat.add_0_r. f_equal. lia.
    + elim (Hbad i0); [lia|exact E].
  - change (trials srv (S (S n)) i0 resp)
      with (let resp := treebuilder_api srv i0 in
            match error resp with
            | None => (resp, S i0)
            | Some _ => trials srv (S n) (S i0) resp
            end).
    cbn zeta. destruct (error (treebuilder_api srv i0)) eqn:E.
    + rewrite IH by (intros j Hj; apply Hbad; lia).
      f_equal; [f_equal|]; lia.
    + elim (Hbad i0); [lia|exact E].
Qed.

(** X21. [askcos] refuses an unknown [output] with a [NameError] before any
    request is sent; otherwise it sends the price request and at most
    [num_trials] tree builder requests and, the server answering each of
    them, whatever it raises is a [KeyError]. *)
Theorem askcos_requests (srv : server) (output : string) (num_trials : nat) :
  (known_output output = false ->
   askcos srv output num_trials = (Throw NameError, O))
  /\ (known_output output = true ->
      (1 <= snd (askcos srv output num_trials) <= 1 + num_trials)%nat
      /\ forall e, fst (askcos srv output num_trials) = Throw e ->
                   e = Std KeyError).
Proof.
  unfold askcos. split; intros Hk; rewrite Hk; cbn [negb]; [reflexivity|].
  destruct (getitem (price (price_api srv))) as [p|e] eqn:Ep.
  - assert (Hn : exists resp n,
              (if Qeq_bool p 0 then trials srv num_trials 0 (price_api srv)
               else (price_api srv, O)) = (resp, n)
              /\ (n <= num_trials)%nat).
    { destruct (Qeq_bool p 0).
      - pose proof (trials_count srv num_trials 0 (price_api srv)) as Hc.
        destruct (trials srv num_trials 0 (price_api srv)) as [resp n].
        exists resp, n. split; [reflexivity|]. simpl in Hc. lia.
      - exists (price_api srv), O. split; [reflexivity|lia]. }
    destruct Hn as (resp & n & -> & Hle).
    destruct (tree_analysis resp) as [[[[[[np st] d] ps] sy] pr]|e] eqn:Et.
    + cbn [fst snd]. split; [lia|]. discriminate.
    + cbn [fst snd]. split; [lia|].
      intros e' H. injection H as <-. f_equal.
      exact (tree_analysis_raises _ Et).
  - cbn [fst snd]. split; [lia|].
    intros e' H. injection H as <-. f_equal. exact (getitem_raises _ Ep).
Qed.

Lemma askcos_requests_witness :
  askcos SmallMore.server "confidence" 5 = (Throw NameError, O)
  /\ (1 <= snd (askcos SmallMore.server "price" 5) <= 6)%nat.
Proof.
  split.
  - exact (proj1 (askcos_requests SmallMore.server "confidence" 5) eq_refl).
  - exact (proj1 (proj2 (askcos_requests SmallMore.server "price" 5) eq_refl)).
Defined.

(** X22. A compound with a price: when the price answer carries no error and
    a price that is not zero, [askcos] sends that one request and returns the
    price, 0 steps, synthesizability 1 and plausibility 1.  With
    [num_trials = 0] it does the same for the price zero, so that a compound
    that cannot be bought is then reported as synthesizable at price 0. *)
Theorem askcos_purchasable (srv : server) (p : Q) (num_trials : nat) :
  error (price_api srv) = None ->
  price (price_api srv) = Some p ->
  ~ p == 0 \/ num_trials = O ->
  askcos srv "price" num_trials = (Return (NumAnswer p), 1%nat)
  /\ askcos srv "num_step" num_trials = (Return (IntAnswer 0), 1%nat)
  /\ askcos srv "synthesizability" num_trials = (Return (IntAnswer 1), 1%nat)
  /\ askcos srv "plausibility" num_trials = (Return (NumAnswer 1), 1%nat).
Proof.
  intros He Hp Hcase.
  assert (Hkeep :
    (if Qeq_bool p 0 then trials srv num_trials 0 (price_api srv)
     else (price_api srv, O)) = (price_api srv, O)).
  { destruct (Qeq_bool p 0) eqn:E; [|reflexivity].
    destruct Hcase as [Hnz| ->]; [|reflexivity].
    apply Qeq_bool_iff in E. contradiction. }
  assert (Ht : tree_analysis (price_api srv) = Ok (0%Z, [], 0%Z, 1, 1%Z, p)).
  { unfold tree_analysis. now rewrite He, Hp. }
  unfold askcos. rewrite Hp. cbn [getitem]. rewrite Hkeep, Ht.
  repeat split.
Qed.

Lemma askcos_purchasable_witness :
  askcos {| price_api := {| error := None; price := Some 5; trees := None |};
            treebuilder_api := fun _ =>
              {| error := None; price := None; trees := None |} |}
    "price" 5
  = (Return (NumAnswer 5), 1%nat).
Proof.
  refine (proj1 (@askcos_purchasable
                   {| price_api := {| error := None; price := Some 5;
                                      trees := None |};
                      treebuilder_api := fun _ =>
                        {| error := None; price := None; trees := None |} |}
                   5 5 eq_refl eq_refl _)).
  left. intros H. discriminate H.
Defined.

(** X23. A compound without price (the price answer says 0): [askcos]
    analyses the first tree builder answer without error among the first
    [num_trials], having sent one request more than answers received; and
    when all [num_trials] answers carry an error it returns the sentinel
    values: 11 steps, and -1 for price, plausibility and synthesizability. *)
Theorem askcos_retries (srv : server) (p : Q) (num_trials : nat) :
  price (price_api srv) = Some p -> p == 0 ->
  (forall output i,
     (i < num_trials)%nat ->
     (forall j, (j < i)%nat -> error (treebuilder_api srv j) <> None) ->
     error (treebuilder_api srv i) = None ->
     askcos srv output num_trials
     = (fst (askcos {| price_api := price_api srv;
                       treebuilder_api := fun _ => treebuilder_api srv i |}
               output 1),
        if known_output output then (i + 2)%nat else O))
  /\ ((0 < num_trials)%nat ->
      (forall j, (j < num_trials)%nat ->
         error (treebuilder_api srv j) <> None) ->
      askcos srv "num_step" num_trials
      = (Return (IntAnswer 11), S num_trials)
      /\ askcos srv "price" num_trials
         = (Return (NumAnswer (-1)), S num_trials)
      /\ askcos srv "plausibility" num_trials
         = (Return (NumAnswer (-1)), S num_trials)
      /\ askcos srv "synthesizability" num_trials
         = (Return (IntAnswer (-1)), S num_trials)).
Proof.
  intros Hp Hz. apply Qeq_bool_iff in Hz. split.
  - intros output i Hi Hbad Hok. unfold askcos.
    destruct (known_output output); cbn [negb]; [|reflexivity].
    cbn [price_api treebuilder_api]. rewrite Hp. cbn [getitem]. rewrite Hz.
    rewrite (@trials_first_success srv num_trials 0 i (price_api srv));
      [|lia|intros j Hj; apply Hbad; lia|exact Hok].
    cbn [trials treebuilder_api]. rewrite Hok.
    destruct (tree_analysis (treebuilder_api srv i))
      as [[[[[[np st] d] ps] sy] pr]|e]; cbn [fst]; f_equal; lia.
  - intros Hn Hbad. destruct num_trials as [|n]; [lia|].
    assert (Ht : trials srv (S n) 0 (price_api srv)
                 = (treebuilder_api srv n, S n)).
    { rewrite trials_all_fail; [reflexivity|].
      intros j Hj. apply Hbad. lia. }
    assert (Hs : tree_analysis (treebuilder_api srv n)
                 = Ok ((-1)%Z, [], 11%Z, -1, (-1)%Z, -1)).
    { unfold tree_analysis.
      destruct (error (treebuilder_api srv n)) eqn:E; [reflexivity|].
      elim (Hbad n); [lia|exact E]. }
    unfold askcos. rewrite Hp. cbn [getitem]. rewrite Hz, Ht, Hs.
    repeat split.
Qed.

End AskcosFacts.

Lemma askcos_retries_witness :
  Askcos.askcos SmallMore.server "num_step" 5
  = (Return (Askcos.IntAnswer 1), 4%nat)
  /\ Askcos.askcos SmallMore.server "price" 2
     = (Return (Askcos.NumAnswer (-1)), 3%nat).
Proof.
  assert (Hp : price (Askcos.price_api SmallMore.server) = Some 0%Q)
    by reflexivity.
  assert (Hz : (0 == 0)%Q) by reflexivity.
  split.
  - destruct (@askcos_retries SmallMore.server 0%Q 5 Hp Hz) as [Hfirst _].
    rewrite (Hfirst "num_step"%string 2%nat).
    + reflexivity.
    + lia.
    + intros j Hj. destruct j as [|[|j]]; [discriminate|discriminate|lia].
    + reflexivity.
  - destruct (@askcos_retries SmallMore.server 0%Q 2 Hp Hz) as [_ Hall].
    apply Hall.
    + lia.
    + intros j Hj. destruct j as [|[|j]]; [discriminate|discriminate|lia].
Defined.

(** * The hop objectives and their globals *)

Section HopFacts.

Import Hop.
Local Open Scope R_scope.

Variable tk : Toolkit.
Variable ext : Extension tk.

Lemma clipped_default_call (upper_x t : R) :
  upper_x <> 0 ->
  exists m y,
    ClippedScoreModifier_init upper_x 0 1 0 = Ok m
    /\ call m (PyFloat t) = Ok y /\ 0 <= val y <= 1.
Proof.
  intros Hu. destruct (clipped_default_init Hu) as (m & Hm).
  exists m. pose proof (clipped_init_inv _ _ _ _ Hm) as (Hlt & _ & E).
  rewrite E. rewrite clipped_call. eexists. split; [rewrite <- E; exact Hm|].
  split; [reflexivity|]. simpl. now apply clip_bounds.
Qed.

(** The value of a pattern score on a molecule is 0 or 1, and the flag swaps
    the two. *)
Lemma SMARTS_scoring_call_some (smarts : string) (m : Mol tk) :
  exists v,
    (v = 0 \/ v = 1)
    /\ SMARTS_scoring_call ext {| target_smarts := smarts; inverse := false |}
         (Some m) = Return v
    /\ SMARTS_scoring_call ext {| target_smarts := smarts; inverse := true |}
         (Some m) = Return (1 - v).
Proof.
  unfold SMARTS_scoring_call. cbn [target_smarts inverse].
  destruct (0 <? SubstructMatchCount ext m smarts)%nat.
  - exists 1. split; [now right|]. split; [reflexivity|]. f_equal. lra.
  - exists 0. split; [now left|]. split; [reflexivity|]. f_equal. lra.
Qed.

Lemma deco_hop_body_value (g : Globals tk) (s : string) (m : Mol tk)
  (ph : Fingerprint tk) (a b c : SMARTS_scoring) (va vb vc : R) :
  smiles_to_rdkit_mol tk s = Some m ->
  pharmacophor_fp g = Some ph ->
  deco1_smarts_scoring g = Some a -> deco2_smarts_scoring g = Some b ->
  scaffold_smarts_scoring g = Some c ->
  SMARTS_scoring_call ext a (Some m) = Return va ->
  SMARTS_scoring_call ext b (Some m) = Return vb ->
  SMARTS_scoring_call ext c (Some m) = Return vc ->
  exists y,
    0 <= y <= 1
    /\ (forall t, t = TanimotoSimilarity tk (Gen2DFingerprint ext m) ph ->
          exists mo sy, ClippedScoreModifier_init 0.85 0 1 0 = Ok mo
                        /\ call mo (PyFloat t) = Ok sy /\ val sy = y)
    /\ deco_hop_body ext g s = Return ((y + (va + (vb + (vc + 0)))) / 4).
Proof.
  intros Hm Hph Ha Hb Hc Hva Hvb Hvc.
  assert (Hu : (0.85 : R) <> 0) by lra.
  destruct (@clipped_default_call 0.85
              (TanimotoSimilarity tk (Gen2DFingerprint ext m) ph) Hu)
    as (mo & sy & Hmo & Hsy & Hr).
  exists (val sy). split; [exact Hr|]. split.
  - intros t ->. exists mo, sy. repeat split; assumption.
  - unfold deco_hop_body. rewrite Hm. cbn [get_PHCO_fingerprint rdkit_arg
      of_result and_then]. rewrite Hmo. cbn [of_result and_then].
    rewrite Hph. cbn [read and_then]. rewrite Hsy. cbn [of_result and_then].
    rewrite Ha. cbn [read and_then]. rewrite Hva. cbn [and_then].
    rewrite Hb. cbn [read and_then]. rewrite Hvb. cbn [and_then].
    rewrite Hc. cbn [read and_then]. rewrite Hvc. cbn [and_then].
    f_equal. unfold MoreOracles.np_mean. cbn [fold_right List.length].
    f_equal. simpl. lra.
Qed.

(** X24. [deco_hop] after [scaffold_hop]: a first call of [scaffold_hop]
    defines the reference fingerprint but not the two decoration scorers of
    [deco_hop], which then skips its own initialisation and fails with a
    [NameError], on every candidate that parses. *)
Theorem deco_hop_after_scaffold_hop (s1 s2 : string)
  (pm m2 : Mol tk) :
  smiles_to_rdkit_mol tk pharmacophor_smiles = Some pm ->
  smiles_to_rdkit_mol tk s2 = Some m2 ->
  fst (deco_hop ext (snd (scaffold_hop ext (fresh tk) s1)) s2) = Throw NameError.
Proof.
  intros Hp Hm.
  unfold scaffold_hop. cbn [fresh pharmacophor_fp is_none orb].
  rewrite Hp. cbn [get_PHCO_fingerprint rdkit_arg of_result and_then snd].
  unfold deco_hop. cbn [pharmacophor_fp fst].
  unfold deco_hop_body. rewrite Hm.
  cbn [get_PHCO_fingerprint rdkit_arg of_result and_then].
  assert (Hu : (0.85 : R) <> 0) by lra.
  destruct (@clipped_default_call 0.85
              (TanimotoSimilarity tk (Gen2DFingerprint ext m2)
                 (Gen2DFingerprint ext pm)) Hu)
    as (mo & sy & Hmo & Hsy & _).
  rewrite Hmo. cbn [of_result and_then pharmacophor_fp read].
  rewrite Hsy. cbn [of_result and_then deco1_smarts_scoring fresh read].
  reflexivity.
Qed.

(** X25. [deco_hop] depends on what was called before it.  From fresh
    globals, on a candidate that parses, it returns a value between 0 and 1;
    after a call of [scaffold_hop], which redefines the scaffold scorer with
    the opposite flag, the same candidate gets a value a quarter above or
    below. *)
Theorem deco_hop_changes_after_scaffold_hop (s s' : string) (pm m : Mol tk) :
  smiles_to_rdkit_mol tk pharmacophor_smiles = Some pm ->
  smiles_to_rdkit_mol tk s = Some m ->
  let first := deco_hop ext (fresh tk) s in
  let g2 := snd (scaffold_hop ext (snd first) s') in
  exists v1 v3,
    fst first = Return v1
    /\ fst (deco_hop ext g2 s) = Return v3
    /\ 0 <= v1 <= 1
    /\ (v3 = v1 + 1 / 4 \/ v3 = v1 - 1 / 4).
Proof.
  intros Hp Hm. cbn zeta.
  destruct (SMARTS_scoring_call_some "CS([#6])(=O)=O" m) as (d1 & Hd1 & _ & Hc1).
  destruct (SMARTS_scoring_call_some "[#7]-c1ccc2ncsc2c1" m)
    as (d2 & Hd2 & _ & Hc2).
  destruct (SMARTS_scoring_call_some scaffold_smarts m) as (sc & Hsc & Hf & Ht).
  pose (g1 := {| pharmacophor_fp := Some (Gen2DFingerprint ext pm);
                 deco1_smarts_scoring :=
                   Some {| target_smarts := "CS([#6])(=O)=O"; inverse := true |};
                 deco2_smarts_scoring :=
                   Some {| target_smarts := "[#7]-c1ccc2ncsc2c1";
                           inverse := true |};
                 scaffold_smarts_scoring :=
                   Some {| target_smarts := scaffold_smarts; inverse := false |};
                 deco_smarts_scoring := None |} : Globals tk).
  assert (E1 : deco_hop ext (fresh tk) s = (deco_hop_body ext g1 s, g1)).
  { unfold deco_hop. cbn [fresh pharmacophor_fp]. rewrite Hp. reflexivity. }
  pose (g2 := {| pharmacophor_fp := Some (Gen2DFingerprint ext pm);
                 deco1_smarts_scoring := deco1_smarts_scoring g1;
                 deco2_smarts_scoring := deco2_smarts_scoring g1;
                 deco_smarts_scoring :=
                   Some {| target_smarts :=
                             "[#6]-[#6]-[#6]-[#8]-[#6]~[#6]~[#6]~[#6]~[#6]-[#7]-c1ccc2ncsc2c1";
                           inverse := false |};
                 scaffold_smarts_scoring :=
                   Some {| target_smarts := scaffold_smarts; inverse := true |} |}
             : Globals tk).
  assert (E2 : snd (scaffold_hop ext g1 s') = g2).
  { unfold scaffold_hop. cbn [g1 pharmacophor_fp scaffold_smarts_scoring
      deco_smarts_scoring is_none orb]. rewrite Hp. reflexivity. }
  assert (E3 : deco_hop ext g2 s = (deco_hop_body ext g2 s, g2)).
  { reflexivity. }
  rewrite E1. cbn [fst snd]. rewrite E2, E3. cbn [fst].
  destruct (@deco_hop_body_value g1 s m (Gen2DFingerprint ext pm) _ _ _ _ _ _
              Hm eq_refl eq_refl eq_refl eq_refl Hc1 Hc2 Hf)
    as (y & Hy & Hymo & Hv1).
  destruct (@deco_hop_body_value g2 s m (Gen2DFingerprint ext pm) _ _ _ _ _ _
              Hm eq_refl eq_refl eq_refl eq_refl Hc1 Hc2 Ht)
    as (y' & _ & Hymo' & Hv3).
  assert (Ey : y' = y).
  { destruct (Hymo _ eq_refl) as (mo & sy & Hmo & Hsy & <-).
    destruct (Hymo' _ eq_refl) as (mo' & sy' & Hmo' & Hsy' & <-).
    rewrite Hmo in Hmo'. injection Hmo' as <-.
    rewrite Hsy in Hsy'. now injection Hsy' as <-. }
  subst y'.
  exists ((y + (1 - d1 + (1 - d2 + (sc + 0)))) / 4),
         ((y + (1 - d1 + (1 - d2 + (1 - sc + 0)))) / 4).
  split; [exact Hv1|]. split; [exact Hv3|].
  split.
  - destruct Hd1 as [-> | ->], Hd2 as [-> | ->], Hsc as [-> | ->]; lra.
  - destruct Hsc as [-> | ->]; [left|right]; lra.
Qed.

End HopFacts.

Lemma deco_hop_after_scaffold_hop_witness :
  fst (Hop.deco_hop SmallMore.text_extension
         (snd (Hop.scaffold_hop SmallMore.text_extension
                 (Hop.fresh SmallMore.text_toolkit) "C"))
         "C")
  = Throw NameError.
Proof.
  exact (@deco_hop_after_scaffold_hop SmallMore.text_toolkit
           SmallMore.text_extension "C" "C" Hop.pharmacophor_smiles "C"%string
           eq_refl eq_refl).
Defined.

Lemma deco_hop_changes_after_scaffold_hop_witness :
  exists v1 v3,
    fst (Hop.deco_hop SmallMore.text_extension
           (Hop.fresh SmallMore.text_toolkit) "C") = Return v1
    /\ fst (Hop.deco_hop SmallMore.text_extension
              (snd (Hop.scaffold_hop SmallMore.text_extension
                      (snd (Hop.deco_hop SmallMore.text_extension
                              (Hop.fresh SmallMore.text_toolkit) "C"))
                      "C"))
              "C") = Return v3
    /\ v1 <> v3.
Proof.
  destruct (@deco_hop_changes_after_scaffold_hop SmallMore.text_toolkit
              SmallMore.text_extension "C" "C" Hop.pharmacophor_smiles
              "C"%string eq_refl eq_refl) as (v1 & v3 & H1 & H3 & _ & Hd).
  exists v1, v3. split; [exact H1|]. split; [exact H3|].
  destruct Hd as [-> | ->]; lra.
Defined.

(** * The cached reference of osimertinib_mpo *)

(** X26. The reference fingerprints that [osimertinib_mpo] keeps in the
    globals do not change what it returns: after any first call, a call
    returns what it would return as a first call, and leaves the globals as
    it found them. *)
Theorem osimertinib_cache_is_transparent (tk : Toolkit) (s s' : string) :
  let g1 := snd (@osimertinib_mpo tk None s) in
  osimertinib_mpo g1 s' = osimertinib_mpo None s'
  /\ snd (osimertinib_mpo g1 s') = g1
  /\ (g1 = None <-> smiles_to_rdkit_mol tk osimertinib_smiles = None).
Proof.
  cbn zeta. unfold osimertinib_mpo.
  unfold smiles_2_fingerprint_FCFP4, smiles_2_fingerprint_ECFP6.
  destruct (smiles_to_rdkit_mol tk osimertinib_smiles) as [m|];
    cbn [rdkit_arg bind fst snd].
  - repeat split; discriminate.
  - repeat split.
Qed.
